(** * form-validation.js: client-side validation of the contact form

    A shallow embedding of [checkMissing], [validateEmail], [validateForm]
    and of the listener wiring of form-validation.js, over a small model of
    the part of the browser the script touches: the document (a store of
    elements addressed by handle), the [alert] dialogs shown so far and the
    cancelled flag of the event being dispatched. *)

From Stdlib Require Import ZArith NArith String Ascii.
From stdpp Require Import base decidable option numbers list pretty.

Local Open Scope Z_scope.

(** ** JavaScript strings *)

(** A JavaScript string is a sequence of UTF-16 code units; [length] counts
    code units. *)
Abbreviation jsstring := (list N).

(** A string literal of the script whose characters are all ASCII. *)
Definition lit (s : string) : jsstring :=
  N_of_ascii <$> list_ascii_of_string s.

(** [WhiteSpace] and [LineTerminator] of ECMAScript: the code points that
    [String.prototype.trim] strips. All of them lie in the basic plane, so
    each is one code unit. *)
Definition isWhiteSpace (c : N) : bool :=
  ((c =? 0x0009) || (c =? 0x000A) || (c =? 0x000B) || (c =? 0x000C)
   || (c =? 0x000D) || (c =? 0x0020) || (c =? 0x00A0) || (c =? 0x1680)
   || ((0x2000 <=? c) && (c <=? 0x200A))
   || (c =? 0x2028) || (c =? 0x2029) || (c =? 0x202F) || (c =? 0x205F)
   || (c =? 0x3000) || (c =? 0xFEFF))%N.

Fixpoint trimStart (s : jsstring) : jsstring :=
  match s with
  | [] => []
  | c :: s' => if isWhiteSpace c then trimStart s' else s
  end.

Definition trimEnd (s : jsstring) : jsstring :=
  reverse (trimStart (reverse s)).

(** [String.prototype.trim] *)
Definition trim (s : jsstring) : jsstring := trimEnd (trimStart s).

(** [!s] on a string: only the empty string is falsy. *)
Definition isFalsyString (s : jsstring) : bool :=
  match s with [] => true | _ :: _ => false end.

(** [Number::toString] of an integer of magnitude below 10^21: its decimal
    digits. [missingCount] is bounded by the number of elements of the
    document, far below that. *)
Definition numberToString (n : Z) : jsstring := lit (pretty n).

(** ** The document *)

(** The properties of an element the script reads or writes. [value] is
    [None] on an element that has no string [value] property (a [<div>], say):
    reading it gives [undefined], and calling [.trim()] on that throws.
    [classList] is the token list of the [class] attribute. [value] and
    [textContent] are independent, as they are on an [<input>] and on a
    [<span>]. Elements are kept flat: the script never walks the tree, and
    its one assignment that replaces children, [textContent] on the status
    display, is made on what the script's header calls the [<span>] below
    the form, which holds text only. *)
Record Element := mkElement {
  elementId : jsstring;
  classList : list jsstring;
  value : option jsstring;
  textContent : jsstring;
  style_color : jsstring
}.

(** What the script can see and change. [document] lists the elements in
    tree order; an element handle is its position. [alerts] are the blocking
    dialogs shown so far, oldest first. [defaultPrevented] is the cancelled
    flag of the event being dispatched. *)
Record World := mkWorld {
  document : list Element;
  alerts : list jsstring;
  defaultPrevented : bool
}.

Definition withDocument (d : list Element) (w : World) : World :=
  {| document := d; alerts := alerts w;
     defaultPrevented := defaultPrevented w |}.

Definition setTextContent (s : jsstring) (e : Element) : Element :=
  {| elementId := elementId e; classList := classList e; value := value e;
     textContent := s; style_color := style_color e |}.

Definition setStyleColor (s : jsstring) (e : Element) : Element :=
  {| elementId := elementId e; classList := classList e; value := value e;
     textContent := textContent e; style_color := s |}.

Definition setClassList (l : list jsstring) (e : Element) : Element :=
  {| elementId := elementId e; classList := l; value := value e;
     textContent := textContent e; style_color := style_color e |}.

(** [DOMTokenList.add] and [DOMTokenList.remove] for one token. *)
Definition tokenAdd (t : jsstring) (l : list jsstring) : list jsstring :=
  if decide (t ∈ l) then l else l ++ [t].

Definition tokenRemove (t : jsstring) (l : list jsstring) : list jsstring :=
  filter (λ u, u ≠ t) l.

(** ** Script execution: state and exceptions *)

Inductive JsError := TypeError.

Inductive Completion (A : Type) :=
  | Normal (a : A)
  | Throw (e : JsError).
Arguments Normal {A} a.
Arguments Throw {A} e.

Definition M (A : Type) : Type := World → Completion A * World.

Definition ret {A} (a : A) : M A := λ w, (Normal a, w).

Definition bind {A B} (m : M A) (k : A → M B) : M B := λ w,
  match m w with
  | (Normal a, w') => k a w'
  | (Throw e, w') => (Throw e, w')
  end.

Definition throw {A} (e : JsError) : M A := λ w, (Throw e, w).

Declare Scope js_scope.
Delimit Scope js_scope with js.
Notation "'let*' x := m 'in' k" := (bind m (λ x, k))
  (at level 10, x name, m at level 100, k at level 200) : js_scope.
Notation "m ;;; k" := (bind m (λ _, k))
  (at level 100, k at level 200, right associativity) : js_scope.
Local Open Scope js_scope.

(** *** The browser primitives the script calls *)

(** Handle of the first element, in tree order, with the given id. *)
Definition elementById (s : jsstring) (d : list Element) : option nat :=
  fst <$> list_find (λ e, elementId e = s) d.

Definition getElementById (s : jsstring) : M (option nat) := λ w,
  (Normal (elementById s (document w)), w).

(** Handles, in tree order, of the elements carrying class [c], for a
    document whose first element has handle [i]. *)
Fixpoint selectClass (c : jsstring) (i : nat) (d : list Element) : list nat :=
  match d with
  | [] => []
  | e :: d' =>
      if decide (c ∈ classList e) then i :: selectClass c (S i) d'
      else selectClass c (S i) d'
  end.

(** [document.querySelectorAll('.' + c)]: a static list of handles. *)
Definition querySelectorAll (c : jsstring) : M (list nat) := λ w,
  (Normal (selectClass c 0 (document w)), w).

(** [h.value]; [None] is [undefined]. *)
Definition getValue (h : nat) : M (option jsstring) := λ w,
  (Normal (document w !! h ≫= value), w).

(** [v.trim()] *)
Definition callTrim (v : option jsstring) : M jsstring :=
  match v with
  | Some s => ret (trim s)
  | None => throw TypeError
  end.

(** [h.id] *)
Definition getId (h : nat) : M (option jsstring) := λ w,
  (Normal (elementId <$> document w !! h), w).

Definition updateElement (h : nat) (f : Element → Element) : M unit := λ w,
  (Normal (), withDocument (alter f h (document w)) w).

Definition assignTextContent (h : nat) (s : jsstring) : M unit :=
  updateElement h (setTextContent s).

Definition assignStyleColor (h : nat) (s : jsstring) : M unit :=
  updateElement h (setStyleColor s).

Definition classListAdd (h : nat) (t : jsstring) : M unit :=
  updateElement h (λ e, setClassList (tokenAdd t (classList e)) e).

Definition classListRemove (h : nat) (t : jsstring) : M unit :=
  updateElement h (λ e, setClassList (tokenRemove t (classList e)) e).

Definition alert (msg : jsstring) : M unit := λ w,
  (Normal (),
   {| document := document w; alerts := alerts w ++ [msg];
      defaultPrevented := defaultPrevented w |}).

(** [NodeList.forEach] with a callback that updates one captured local
    variable, whose value is threaded through the iterations. *)
Fixpoint forEach {S} (l : list nat) (body : nat → S → M S) (s : S) : M S :=
  match l with
  | [] => ret s
  | h :: l' => let* s' := body h s in forEach l' body s'
  end.

(** ** The script *)

Definition checkMissing : M Z :=
  let* requiredFields := querySelectorAll (lit "required") in
  let* missingCount :=
    forEach requiredFields (λ field missingCount,
      let* v := getValue field in
      let* t := callTrim v in
      if isFalsyString t then ret (missingCount + 1) else ret missingCount) 0 in
  let* messageSpan := getElementById (lit "missing-count") in
  match messageSpan with
  | Some messageSpan =>
      if 0 <? missingCount then
        assignTextContent messageSpan
          (numberToString missingCount
             ++ lit " required field(s) still incomplete.") ;;;
        assignStyleColor messageSpan (lit "red")
      else
        assignTextContent messageSpan (lit "All required fields completed.") ;;;
        assignStyleColor messageSpan (lit "green")
  | None => ret ()
  end ;;;
  ret missingCount.

Definition validateEmail : M bool :=
  let* emailInput := getElementById (lit "email") in
  match emailInput with
  | None => ret true
  | Some emailInput =>
      let* v := getValue emailInput in
      let* t := callTrim v in
      let isValid := 8 <=? Z.of_nat (length t) in
      (if negb isValid then classListAdd emailInput (lit "invalid")
       else classListRemove emailInput (lit "invalid")) ;;;
      ret isValid
  end.

(** The two messages of [validateForm]: U+26A0 U+FE0F and U+2705 lead them. *)
Definition warningMessage : jsstring :=
  [0x26A0; 0xFE0F]%N
  ++ lit " Please complete all required fields and ensure the email has at least 8 characters.".

Definition successMessage : jsstring :=
  [0x2705]%N ++ lit " Form submitted successfully!".

Definition validateForm : M unit :=
  let* missing := checkMissing in
  let* emailOK := validateEmail in
  if (0 <? missing) || negb emailOK then alert warningMessage
  else alert successMessage.

(** *** Listener wiring *)

(** What the [DOMContentLoaded] handler attaches: an [input] listener on each
    element that carries class [required] at that moment, and a [click]
    listener on the element with id [submitBtn], when there is one. *)
Record Listeners := mkListeners {
  inputListeners : list nat;
  clickListener : option nat
}.

Definition onDOMContentLoaded : M Listeners :=
  let* requiredFields := querySelectorAll (lit "required") in
  let* submitBtn := getElementById (lit "submitBtn") in
  ret {| inputListeners := requiredFields; clickListener := submitBtn |}.

(** The [input] listener of [field]. *)
Definition onInput (field : nat) : M unit :=
  checkMissing ;;;
  let* i := getId field in
  if decide (i = Some (lit "email")) then validateEmail ;;; ret ()
  else ret ().

Inductive Event :=
  | InputEvent (currentTarget : nat)
  | ClickEvent (currentTarget : nat).

(** An exception that escapes a listener is reported by the browser and
    does not stop the dispatch. *)
Definition runListener (l : M unit) : M unit := λ w, (Normal (), snd (l w)).

Definition clearDefaultPrevented : M unit := λ w,
  (Normal (),
   {| document := document w; alerts := alerts w; defaultPrevented := false |}).

Definition getDefaultPrevented : M bool := λ w,
  (Normal (defaultPrevented w), w).

(** Dispatch of a fresh event at an element: its listeners run, and the
    result tells whether the default action may proceed. *)
Definition dispatchEvent (ls : Listeners) (ev : Event) : M bool :=
  clearDefaultPrevented ;;;
  match ev with
  | InputEvent h =>
      if decide (h ∈ inputListeners ls) then runListener (onInput h)
      else ret ()
  | ClickEvent h =>
      if decide (clickListener ls = Some h) then runListener validateForm
      else ret ()
  end ;;;
  let* cancelled := getDefaultPrevented in
  ret (negb cancelled).

(** ** Specification-side definitions *)

(** Only whitespace (possibly nothing at all). *)
Definition allWhiteSpace (s : jsstring) : bool := forallb isWhiteSpace s.

(** A required-tagged field whose value, with leading and trailing
    whitespace removed, is the empty string. *)
Definition isMissing (e : Element) : Prop :=
  lit "required" ∈ classList e ∧ trim <$> value e = Some [].

Global Instance isMissing_dec e : Decision (isMissing e).
Proof. unfold isMissing. apply _. Defined.

(** The number of missing required fields of a document, as the
    specification words it. *)
Definition missingFields (d : list Element) : Z :=
  Z.of_nat (length (filter isMissing d)).

(** Every element tagged [required] is a field: it carries a text value. *)
Definition requiredAreFields (d : list Element) : Prop :=
  Forall (λ e, lit "required" ∈ classList e → is_Some (value e)) d.

Global Instance requiredAreFields_dec d : Decision (requiredAreFields d).
Proof. unfold requiredAreFields. apply _. Defined.

(** The element with id [email], when there is one, is a field. *)
Definition emailIsField (d : list Element) : Prop :=
  match elementById (lit "email") d with
  | Some h => is_Some (d !! h ≫= value)
  | None => True
  end.

Global Instance emailIsField_dec d : Decision (emailIsField d).
Proof. unfold emailIsField. destruct (elementById _ d); apply _. Defined.

(** The email rule of the specification: at least 8 code units after
    trimming; an absent email field counts as valid. *)
Definition emailValid (d : list Element) : bool :=
  match elementById (lit "email") d with
  | None => true
  | Some h =>
      match d !! h ≫= value with
      | Some v => bool_decide (8 ≤ length (trim v))%nat
      | None => false
      end
  end.

(** The loop of [checkMissing] read off the elements themselves: the
    count after visiting [d] starting from [n], or the exception of the
    first tagged element without a text value. *)
Fixpoint scan (d : list Element) (n : Z) : Completion Z :=
  match d with
  | [] => Normal n
  | e :: d' =>
      if decide (lit "required" ∈ classList e) then
        match value e with
        | Some s => scan d' (if isFalsyString (trim s) then n + 1 else n)
        | None => Throw TypeError
        end
      else scan d' n
  end.

(** The status line for a given count: text and colour. *)
Definition statusText (n : Z) : jsstring :=
  if 0 <? n then numberToString n ++ lit " required field(s) still incomplete."
  else lit "All required fields completed.".

Definition statusColor (n : Z) : jsstring :=
  if 0 <? n then lit "red" else lit "green".

Definition renderStatus (n : Z) (e : Element) : Element :=
  setStyleColor (statusColor n) (setTextContent (statusText n) e).

(** The world [checkMissing] leaves behind when its count is [n]: the status
    display, if the document has one, shows the status line. *)
Definition afterCheckMissing (n : Z) (w : World) : World :=
  match elementById (lit "missing-count") (document w) with
  | Some h => withDocument (alter (renderStatus n) h (document w)) w
  | None => w
  end.

(** The marker update of [validateEmail] on the email element. *)
Definition markEmail (ok : bool) (e : Element) : Element :=
  setClassList
    ((if ok then tokenRemove (lit "invalid") else tokenAdd (lit "invalid"))
       (classList e)) e.

(** The world [validateEmail] leaves behind when the email field has handle
    [h] and the verdict is [ok]. *)
Definition afterValidateEmail (h : nat) (ok : bool) (w : World) : World :=
  withDocument (alter (markEmail ok) h (document w)) w.

(** [again m k w]: the outcome of calling [m] once more after [k] earlier
    calls, the first of them in world [w]. *)
Fixpoint again {A} (m : M A) (k : nat) (w : World) : Completion A * World :=
  match k with
  | O => m w
  | S k' => again m k' (snd (m w))
  end.

(** What an operation may change between two documents: nothing but the
    text and colour of the status display and the presence of the token
    [invalid] in the class list of the email field. *)
Definition frameElement (status email : bool) (e e' : Element) : Prop :=
  elementId e' = elementId e
  ∧ value e' = value e
  ∧ (status = false →
       textContent e' = textContent e ∧ style_color e' = style_color e)
  ∧ (email = false → classList e' = classList e)
  ∧ (∀ t, t ≠ lit "invalid" → t ∈ classList e' ↔ t ∈ classList e).

Definition frameDocument (d d' : list Element) : Prop :=
  length d' = length d
  ∧ ∀ h e e', d !! h = Some e → d' !! h = Some e' →
      frameElement
        (bool_decide (elementById (lit "missing-count") d = Some h))
        (bool_decide (elementById (lit "email") d = Some h)) e e'.

(** ** Sample pages *)

Module Page.
(** A text input tagged [required]. *)
Definition requiredInput (i v : string) : Element :=
  {| elementId := lit i; classList := [lit "required"];
     value := Some (lit v); textContent := []; style_color := [] |}.

(** The [<span id="missing-count">] under the form. *)
Definition statusSpan : Element :=
  {| elementId := lit "missing-count"; classList := []; value := None;
     textContent := []; style_color := [] |}.

Definition submitButton : Element :=
  {| elementId := lit "submitBtn"; classList := []; value := Some [];
     textContent := lit "Submit Form"; style_color := [] |}.

Definition page (d : list Element) : World :=
  {| document := d; alerts := []; defaultPrevented := false |}.

(** One empty field, one filled, a short email. *)
Definition scenarioA : World :=
  page [requiredInput "name" ""; requiredInput "subject" "x";
        requiredInput "email" "abc"; statusSpan; submitButton].

(** Everything filled, the email exactly 8 code units long. *)
Definition scenarioB : World :=
  page [requiredInput "name" "a"; requiredInput "subject" "b";
        requiredInput "email" "abcdefgh"; statusSpan; submitButton].

(** Everything filled, the email too short. *)
Definition scenarioC : World :=
  page [requiredInput "name" "a"; requiredInput "email" "short";
        statusSpan; submitButton].

(** No email field at all. *)
Definition scenarioD : World :=
  page [requiredInput "name" "a"; requiredInput "subject" "b";
        statusSpan; submitButton].

(** No status display; one field holds only blanks and a tab. *)
Definition noStatus : World :=
  page [requiredInput "name" (String " " (String "009" " "));
        requiredInput "email" "  a@b.example  "; submitButton].
End Page.

(** ** Further definitions for the listeners *)

(** What the two checks read of an element: its id, its value and whether
    it is tagged [required]. *)
Definition sameInputs (e e' : Element) : Prop :=
  elementId e' = elementId e
  ∧ value e' = value e
  ∧ (lit "required" ∈ classList e' ↔ lit "required" ∈ classList e).

(** A field is filled when its value holds a code unit that is not
    whitespace. *)
Definition isFilled (e : Element) : Prop :=
  ∃ v, value e = Some v ∧ allWhiteSpace v = false.

Module Pages.
(** A page without a submit button. *)
Definition noSubmit : World :=
  Page.page [Page.requiredInput "name" ""; Page.requiredInput "email" "abc";
             Page.statusSpan].

(** A [<div class="required">] among the fields: it has no text value. *)
Definition taggedDiv : World :=
  Page.page
    [Page.requiredInput "name" "";
     {| elementId := []; classList := [lit "required"]; value := None;
        textContent := []; style_color := [] |};
     Page.requiredInput "email" "abc"; Page.statusSpan; Page.submitButton].

(** The id [email] on an element that has no text value. *)
Definition emailDiv : World :=
  Page.page
    [Page.requiredInput "name" "";
     {| elementId := lit "email"; classList := []; value := None;
        textContent := []; style_color := [] |};
     Page.statusSpan; Page.submitButton].
End Pages.

(** ** Trimming *)

Section Trim.
Implicit Types s l r : jsstring.

Lemma allWhiteSpace_app l r :
  allWhiteSpace (l ++ r) = allWhiteSpace l && allWhiteSpace r.
Proof. apply forallb_app. Qed.

Lemma allWhiteSpace_reverse s : allWhiteSpace (reverse s) = allWhiteSpace s.
Proof.
  induction s as [|c s IH]; [done|].
  rewrite reverse_cons, allWhiteSpace_app, IH. simpl.
  rewrite andb_true_r. apply andb_comm.
Qed.

(** [trimStart] splits off a whitespace prefix and stops at the first
    code unit that is not whitespace. *)
Lemma trimStart_split s :
  ∃ l, s = l ++ trimStart s ∧ allWhiteSpace l = true
       ∧ (isWhiteSpace <$> head (trimStart s)) ≠ Some true.
Proof.
  induction s as [|c s (l & Hs & Hl & Hh)]; simpl.
  - by exists [].
  - destruct (isWhiteSpace c) eqn:Hc.
    + exists (c :: l). simpl. rewrite Hc, Hl. by rewrite <- Hs.
    + exists []. simpl. by rewrite Hc.
Qed.

Lemma trimStart_nil_iff s : trimStart s = [] ↔ allWhiteSpace s = true.
Proof.
  induction s as [|c s IH]; simpl; [done|].
  destruct (isWhiteSpace c); simpl; [done|]. split; discriminate.
Qed.

Lemma trimEnd_nil_iff s : trimEnd s = [] ↔ allWhiteSpace s = true.
Proof.
  unfold trimEnd. rewrite <- (allWhiteSpace_reverse s), <- trimStart_nil_iff.
  split; intros H.
  - apply (f_equal reverse) in H. by rewrite reverse_involutive in H.
  - by rewrite H.
Qed.

(** A string trims to the empty string exactly when it holds nothing but
    whitespace. *)
Lemma trim_nil_iff s : trim s = [] ↔ allWhiteSpace s = true.
Proof.
  unfold trim. rewrite trimEnd_nil_iff.
  destruct (trimStart_split s) as (l & Hs & Hl & _).
  rewrite Hs at 2. rewrite allWhiteSpace_app, Hl. done.
Qed.

Lemma trimEnd_split s :
  ∃ r, s = trimEnd s ++ r ∧ allWhiteSpace r = true
       ∧ (isWhiteSpace <$> last (trimEnd s)) ≠ Some true.
Proof.
  destruct (trimStart_split (reverse s)) as (l & Hs & Hl & Hh).
  exists (reverse l). unfold trimEnd. split_and!.
  - rewrite <- reverse_app, <- Hs. by rewrite reverse_involutive.
  - by rewrite allWhiteSpace_reverse.
  - by rewrite last_reverse.
Qed.

Lemma trimEnd_head s :
  (isWhiteSpace <$> head s) ≠ Some true →
  (isWhiteSpace <$> head (trimEnd s)) ≠ Some true.
Proof.
  destruct (trimEnd_split s) as (r & Hs & Hr & _).
  destruct (trimEnd s) as [|c t] eqn:Ht; [done|].
  rewrite Hs. done.
Qed.

(** [trim] removes a whitespace prefix and a whitespace suffix and nothing
    else, and what is left neither starts nor ends with whitespace. *)
Lemma trim_split s :
  ∃ l r, s = l ++ trim s ++ r
         ∧ allWhiteSpace l = true ∧ allWhiteSpace r = true
         ∧ (isWhiteSpace <$> head (trim s)) ≠ Some true
         ∧ (isWhiteSpace <$> last (trim s)) ≠ Some true.
Proof.
  destruct (trimStart_split s) as (l & Hs & Hl & Hh).
  destruct (trimEnd_split (trimStart s)) as (r & Ht & Hr & Hlast).
  exists l, r. unfold trim. split_and!; try done.
  - by rewrite <- Ht.
  - by apply trimEnd_head.
Qed.
End Trim.

(** ** The document store *)

Section Store.
Implicit Types d : list Element.
Implicit Types e : Element.

Lemma fmap_alter_preserved {B} (p : Element → B) f h d :
  (∀ e, p (f e) = p e) → p <$> alter f h d = p <$> d.
Proof.
  intros Hp. revert h. induction d as [|e d IH]; intros [|h]; simpl; [done..| |].
  - by rewrite Hp.
  - f_equal. apply IH.
Qed.

Lemma alter_twice (f : Element → Element) h d :
  (∀ e, f (f e) = f e) → alter f h (alter f h d) = alter f h d.
Proof.
  intros Hf. revert h. induction d as [|e d IH]; intros [|h]; simpl; [done..| |].
  - by rewrite Hf.
  - f_equal. apply IH.
Qed.

(** [getElementById] looks at ids only. *)
Lemma elementById_ids s d d' :
  elementId <$> d = elementId <$> d' → elementById s d = elementById s d'.
Proof.
  unfold elementById. revert d'.
  induction d as [|e d IH]; intros [|e' d'] Hd; simplify_eq/=; [done|].
  rewrite H. case_decide; [done|].
  rewrite <- !option_fmap_compose. specialize (IH d' H0).
  destruct (list_find _ d) as [[]|], (list_find _ d') as [[]|]; by simplify_eq/=.
Qed.

Lemma elementById_alter s f h d :
  (∀ e, elementId (f e) = elementId e) →
  elementById s (alter f h d) = elementById s d.
Proof. intros. apply elementById_ids. by apply fmap_alter_preserved. Qed.

Lemma elementById_Some s d h :
  elementById s d = Some h → ∃ e, d !! h = Some e ∧ elementId e = s.
Proof.
  unfold elementById. intros Hf.
  destruct (list_find _ d) as [[i e]|] eqn:Hfind; simplify_eq/=.
  apply list_find_Some in Hfind as (? & ? & _). eauto.
Qed.

Lemma elementById_None s d :
  elementById s d = None ↔ Forall (λ e, elementId e ≠ s) d.
Proof.
  unfold elementById. rewrite fmap_None. apply list_find_None.
Qed.

(** The loop over the handles returned by [querySelectorAll] visits the
    tagged elements in order and leaves the world as it was. *)
Lemma forEach_scan pre d n w :
  document w = pre ++ d →
  forEach (selectClass (lit "required") (length pre) d)
    (λ field missingCount,
       let* v := getValue field in
       let* t := callTrim v in
       if isFalsyString t then ret (missingCount + 1) else ret missingCount)
    n w
  = (scan d n, w).
Proof.
  revert pre n. induction d as [|e d IH]; intros pre n Hw; simpl; [done|].
  assert (document w = (pre ++ [e]) ++ d) as Hw' by by rewrite <- app_assoc.
  assert (length (pre ++ [e]) = S (length pre)) as Hlen
    by (rewrite length_app; simpl; lia).
  case_decide.
  - simpl. unfold bind at 1. unfold bind at 1. unfold getValue.
    rewrite Hw, list_lookup_middle by done. simpl.
    destruct (value e) as [s|]; simpl; [|done].
    unfold bind at 1, ret.
    rewrite <- Hlen.
    destruct (isFalsyString (trim s)); by apply IH.
  - rewrite <- Hlen. by apply IH.
Qed.

Lemma scan_inputs d d' n :
  classList <$> d = classList <$> d' → value <$> d = value <$> d' →
  scan d n = scan d' n.
Proof.
  revert d' n. induction d as [|e d IH]; intros [|e' d'] n Hc Hv;
    simplify_eq/=; [done|].
  rewrite H, H1. case_decide; [|by apply IH].
  destruct (value e'); [|done]. by apply IH.
Qed.

(** On a document whose tagged elements are fields the loop ends normally,
    with the number of missing fields added to the initial count. *)
Lemma scan_fields d n :
  requiredAreFields d → scan d n = Normal (n + missingFields d).
Proof.
  unfold requiredAreFields, missingFields. intros Hd. revert n.
  induction Hd as [|e d He Hd IH]; intros n; simpl.
  - f_equal. lia.
  - rewrite filter_cons.
    destruct (decide (lit "required" ∈ classList e)) as [Hreq|Hreq].
    + destruct (He Hreq) as [s Hs]. rewrite Hs.
      destruct (trim s) as [|c t] eqn:Ht; simpl.
      * rewrite decide_True by (split; [done|by rewrite Hs; simpl; rewrite Ht]).
        rewrite IH. f_equal. simpl length. lia.
      * rewrite decide_False; [apply IH|].
        intros [_ Hm]. rewrite Hs in Hm. simpl in Hm. by rewrite Ht in Hm.
    + rewrite decide_False by (intros [? _]; done). apply IH.
Qed.

Lemma missingFields_nonneg d : 0 ≤ missingFields d.
Proof. unfold missingFields. lia. Qed.

Lemma renderStatus_twice n e :
  renderStatus n (renderStatus n e) = renderStatus n e.
Proof. done. Qed.

Lemma tokenAdd_elem t (l : list jsstring) : t ∈ tokenAdd t l.
Proof.
  unfold tokenAdd. case_decide; [done|].
  apply elem_of_app. right. by apply list_elem_of_singleton.
Qed.

Lemma tokenRemove_elem t u (l : list jsstring) :
  u ∈ tokenRemove t l ↔ u ∈ l ∧ u ≠ t.
Proof. unfold tokenRemove. rewrite list_elem_of_filter. tauto. Qed.

Lemma tokenAdd_other t u (l : list jsstring) :
  u ≠ t → u ∈ tokenAdd t l ↔ u ∈ l.
Proof.
  intros Hne. unfold tokenAdd. case_decide; [done|].
  rewrite elem_of_app, list_elem_of_singleton. tauto.
Qed.

Lemma tokenAdd_twice t (l : list jsstring) :
  tokenAdd t (tokenAdd t l) = tokenAdd t l.
Proof.
  unfold tokenAdd at 1. rewrite decide_True; [done|apply tokenAdd_elem].
Qed.

Lemma tokenRemove_twice t (l : list jsstring) :
  tokenRemove t (tokenRemove t l) = tokenRemove t l.
Proof. unfold tokenRemove. apply list_filter_filter_l. done. Qed.

Lemma markEmail_twice ok e : markEmail ok (markEmail ok e) = markEmail ok e.
Proof.
  unfold markEmail, setClassList. simpl.
  destruct ok; by rewrite ?tokenAdd_twice, ?tokenRemove_twice.
Qed.
End Store.

(** ** What each function computes *)

Section Runs.
Implicit Types w : World.

Lemma checkMissing_run w :
  checkMissing w =
  match scan (document w) 0 with
  | Normal n => (Normal n, afterCheckMissing n w)
  | Throw x => (Throw x, w)
  end.
Proof.
  pose proof (forEach_scan [] (document w) 0 w eq_refl) as Hloop.
  change (length (@nil Element)) with 0%nat in Hloop.
  unfold checkMissing. unfold bind at 1. unfold querySelectorAll.
  unfold bind at 1. rewrite Hloop.
  destruct (scan (document w) 0) as [n|x]; [|done].
  unfold bind at 1. unfold bind at 1. unfold getElementById.
  unfold afterCheckMissing, renderStatus, statusText, statusColor.
  destruct (elementById _ (document w)) as [h|]; [|done].
  destruct (0 <? n); unfold bind, assignTextContent, assignStyleColor,
    updateElement, ret, withDocument; simpl;
    by rewrite list_alter_alter_eq.
Qed.
Lemma validateEmail_run w :
  validateEmail w =
  match elementById (lit "email") (document w) with
  | None => (Normal true, w)
  | Some h =>
      match document w !! h ≫= value with
      | Some v =>
          let ok := 8 <=? Z.of_nat (length (trim v)) in
          (Normal ok, afterValidateEmail h ok w)
      | None => (Throw TypeError, w)
      end
  end.
Proof.
  unfold validateEmail. unfold bind at 1. unfold getElementById.
  destruct (elementById _ (document w)) as [h|]; [|done].
  unfold bind at 1. unfold getValue.
  destruct (document w !! h ≫= value) as [v|]; [|done].
  simpl. unfold bind at 1. unfold ret at 1.
  by destruct (8 <=? Z.of_nat (length (trim v))).
Qed.

Lemma validateForm_run w :
  validateForm w =
  match checkMissing w with
  | (Normal missing, w1) =>
      match validateEmail w1 with
      | (Normal emailOK, w2) =>
          alert (if (0 <? missing) || negb emailOK then warningMessage
                 else successMessage) w2
      | (Throw x, w2) => (Throw x, w2)
      end
  | (Throw x, w1) => (Throw x, w1)
  end.
Proof.
  unfold validateForm, bind.
  destruct (checkMissing w) as [[missing|x] w1]; [|done].
  destruct (validateEmail w1) as [[emailOK|x] w2]; [|done].
  by destruct ((0 <? missing) || negb emailOK).
Qed.

Lemma document_afterCheckMissing n w :
  document (afterCheckMissing n w) =
  match elementById (lit "missing-count") (document w) with
  | Some h => alter (renderStatus n) h (document w)
  | None => document w
  end.
Proof. unfold afterCheckMissing. by destruct (elementById _ _). Qed.

(** Rendering the status line changes no id, class list or value. *)
Lemma afterCheckMissing_inputs {B} (p : Element → B) n w :
  (∀ m e, p (renderStatus m e) = p e) →
  p <$> document (afterCheckMissing n w) = p <$> document w.
Proof.
  intros Hp. rewrite document_afterCheckMissing.
  destruct (elementById _ _); [|done]. by apply fmap_alter_preserved.
Qed.

Lemma afterCheckMissing_twice n w :
  afterCheckMissing n (afterCheckMissing n w) = afterCheckMissing n w.
Proof.
  unfold afterCheckMissing at 1. rewrite document_afterCheckMissing.
  unfold afterCheckMissing.
  destruct (elementById _ (document w)) as [h|] eqn:Hh.
  - rewrite elementById_alter, Hh by done.
    unfold withDocument; simpl. f_equal. by apply alter_twice.
  - by rewrite Hh.
Qed.

Lemma afterValidateEmail_twice h ok w :
  afterValidateEmail h ok (afterValidateEmail h ok w) = afterValidateEmail h ok w.
Proof.
  unfold afterValidateEmail, withDocument; simpl. f_equal.
  apply alter_twice, markEmail_twice.
Qed.

Lemma checkMissing_twice w : checkMissing (snd (checkMissing w)) = checkMissing w.
Proof.
  rewrite (checkMissing_run w).
  destruct (scan (document w) 0) as [n|x] eqn:Hscan; simpl.
  - rewrite checkMissing_run.
    rewrite (scan_inputs _ (document w)), Hscan
      by (by apply afterCheckMissing_inputs).
    by rewrite afterCheckMissing_twice.
  - by rewrite checkMissing_run, Hscan.
Qed.

Lemma validateEmail_twice w : validateEmail (snd (validateEmail w)) = validateEmail w.
Proof.
  rewrite (validateEmail_run w).
  destruct (elementById _ (document w)) as [h|] eqn:Hh.
  - destruct (document w !! h ≫= value) as [v|] eqn:Hv; simpl.
    + rewrite validateEmail_run. simpl.
      rewrite elementById_alter, Hh by done.
      rewrite list_lookup_alter_eq.
      destruct (document w !! h) as [e|]; simplify_eq/=. rewrite Hv.
      by rewrite afterValidateEmail_twice.
    + by rewrite validateEmail_run, Hh, Hv.
  - simpl. by rewrite validateEmail_run, Hh.
Qed.

Lemma again_fixed {A} (m : M A) :
  (∀ w, m (snd (m w)) = m w) → ∀ k w, again m k w = m w.
Proof.
  intros Hm k. induction k as [|k IH]; intros w; simpl; [done|].
  by rewrite IH, Hm.
Qed.
End Runs.

(** ** The frame of the three operations *)

Section Frame.
Implicit Types d : list Element.
Implicit Types e : Element.

Lemma frameElement_refl status email e : frameElement status email e e.
Proof. by unfold frameElement. Qed.

Lemma frameElement_trans status email e1 e2 e3 :
  frameElement status email e1 e2 → frameElement status email e2 e3 →
  frameElement status email e1 e3.
Proof.
  intros (Hi & Hv & Hs & Hc & Ht) (Hi' & Hv' & Hs' & Hc' & Ht').
  split_and!.
  - congruence.
  - congruence.
  - intros Hf. destruct (Hs Hf), (Hs' Hf). split; congruence.
  - intros Hf. rewrite (Hc' Hf). auto.
  - intros t Hne. rewrite (Ht' t Hne). auto.
Qed.

Lemma frameDocument_refl d : frameDocument d d.
Proof.
  split; [done|]. intros h e e' He He'. simplify_eq.
  apply frameElement_refl.
Qed.

Lemma frameDocument_lookup d d' h e :
  frameDocument d d' → d !! h = Some e → ∃ e', d' !! h = Some e'.
Proof.
  intros [Hlen _] He. apply lookup_lt_is_Some. rewrite Hlen.
  by eapply lookup_lt_Some.
Qed.

Lemma frameDocument_project {B} (p : Element → B) d d' :
  (∀ status email e e', frameElement status email e e' → p e' = p e) →
  frameDocument d d' → p <$> d' = p <$> d.
Proof.
  intros Hp [Hlen Hd]. apply list_eq. intros h.
  rewrite !list_lookup_fmap.
  destruct (d !! h) as [e|] eqn:He.
  - destruct (frameDocument_lookup d d' h e) as [e' He']; [by split|done|].
    rewrite He'. simpl. f_equal. eapply Hp. by eapply Hd.
  - rewrite lookup_ge_None_2; [done|].
    rewrite Hlen. by apply lookup_ge_None_1.
Qed.

(** The frame keeps every id... *)
Lemma frameDocument_ids d d' :
  frameDocument d d' → elementId <$> d' = elementId <$> d.
Proof. apply frameDocument_project. by intros ???? (? & _). Qed.

(** ... and every field value. *)
Lemma frameDocument_values d d' :
  frameDocument d d' → value <$> d' = value <$> d.
Proof. apply frameDocument_project. by intros ???? (_ & ? & _). Qed.

Lemma frameDocument_trans d1 d2 d3 :
  frameDocument d1 d2 → frameDocument d2 d3 → frameDocument d1 d3.
Proof.
  intros H12 H23. pose proof (frameDocument_ids _ _ H12) as Hids.
  destruct H12 as [Hlen Hd], H23 as [Hlen' Hd'].
  split; [congruence|]. intros h e1 e3 He1 He3.
  destruct (frameDocument_lookup d1 d2 h e1) as [e2 He2]; [by split|done|].
  eapply frameElement_trans; [by eapply Hd|].
  rewrite <- (elementById_ids (lit "missing-count") d2 d1) by done.
  rewrite <- (elementById_ids (lit "email") d2 d1) by done.
  by eapply Hd'.
Qed.

Lemma frameDocument_alter (f : Element → Element) h d :
  (∀ e, frameElement
          (bool_decide (elementById (lit "missing-count") d = Some h))
          (bool_decide (elementById (lit "email") d = Some h)) e (f e)) →
  frameDocument d (alter f h d).
Proof.
  intros Hf. split; [apply length_alter|].
  intros j e e' He. destruct (decide (h = j)) as [<-|Hj].
  - rewrite list_lookup_alter_eq, He. intros; simplify_eq/=. apply Hf.
  - rewrite list_lookup_alter_ne, He by done.
    intros; simplify_eq. apply frameElement_refl.
Qed.

Lemma frame_renderStatus n d h :
  elementById (lit "missing-count") d = Some h →
  frameDocument d (alter (renderStatus n) h d).
Proof.
  intros Hh. apply frameDocument_alter. intros e.
  rewrite bool_decide_eq_true_2 by done. by unfold frameElement.
Qed.

Lemma frame_markEmail ok d h :
  elementById (lit "email") d = Some h →
  frameDocument d (alter (markEmail ok) h d).
Proof.
  intros Hh. apply frameDocument_alter. intros e.
  rewrite (bool_decide_eq_true_2 (elementById (lit "email") d = Some h)) by done.
  unfold frameElement. split_and!; try done.
  intros t Hne. unfold markEmail; simpl. destruct ok.
  - rewrite tokenRemove_elem. tauto.
  - by apply tokenAdd_other.
Qed.

Lemma frame_checkMissing w :
  frameDocument (document w) (document (snd (checkMissing w)))
  ∧ alerts (snd (checkMissing w)) = alerts w
  ∧ defaultPrevented (snd (checkMissing w)) = defaultPrevented w.
Proof.
  rewrite checkMissing_run.
  destruct (scan (document w) 0) as [n|x]; simpl;
    [|by split; [apply frameDocument_refl|]].
  unfold afterCheckMissing.
  destruct (elementById _ (document w)) as [h|] eqn:Hh; simpl.
  - split; [by apply frame_renderStatus|done].
  - split; [apply frameDocument_refl|done].
Qed.

Lemma frame_validateEmail w :
  frameDocument (document w) (document (snd (validateEmail w)))
  ∧ alerts (snd (validateEmail w)) = alerts w
  ∧ defaultPrevented (snd (validateEmail w)) = defaultPrevented w.
Proof.
  rewrite validateEmail_run.
  destruct (elementById _ (document w)) as [h|] eqn:Hh; simpl;
    [|by split; [apply frameDocument_refl|]].
  destruct (document w !! h ≫= value) as [v|]; simpl;
    [|by split; [apply frameDocument_refl|]].
  split; [by apply frame_markEmail|done].
Qed.

Lemma frame_validateForm w :
  frameDocument (document w) (document (snd (validateForm w)))
  ∧ (alerts (snd (validateForm w)) = alerts w
     ∨ alerts (snd (validateForm w)) = alerts w ++ [warningMessage]
     ∨ alerts (snd (validateForm w)) = alerts w ++ [successMessage])
  ∧ defaultPrevented (snd (validateForm w)) = defaultPrevented w.
Proof.
  rewrite validateForm_run.
  destruct (frame_checkMissing w) as (Hd1 & Ha1 & Hp1).
  destruct (checkMissing w) as [[missing|x] w1]; simpl in *; [|by auto].
  destruct (frame_validateEmail w1) as (Hd2 & Ha2 & Hp2).
  destruct (validateEmail w1) as [[emailOK|x] w2]; simpl in *.
  - split; [by eapply frameDocument_trans|].
    rewrite Ha2, Ha1, Hp2, Hp1.
    destruct ((0 <? missing) || negb emailOK); auto.
  - split; [by eapply frameDocument_trans|].
    rewrite Ha2, Ha1, Hp2, Hp1. auto.
Qed.
End Frame.

(** ** The email rule *)

Section EmailRule.
Implicit Types d : list Element.
Implicit Types w : World.

Lemma lookup_value d h : d !! h ≫= value = mjoin ((value <$> d) !! h).
Proof. rewrite list_lookup_fmap. by destruct (d !! h). Qed.

Lemma length_rule (v : jsstring) :
  (8 <=? Z.of_nat (length v)) = bool_decide (8 ≤ length v)%nat.
Proof.
  case_bool_decide; [apply Z.leb_le|apply Z.leb_gt]; lia.
Qed.

Lemma emailValid_inputs d d' :
  elementId <$> d = elementId <$> d' → value <$> d = value <$> d' →
  emailValid d = emailValid d'.
Proof.
  intros Hi Hv. unfold emailValid.
  rewrite (elementById_ids _ d d' Hi).
  destruct (elementById _ d') as [h|]; [|done].
  by rewrite !lookup_value, Hv.
Qed.

Lemma emailIsField_inputs d d' :
  elementId <$> d = elementId <$> d' → value <$> d = value <$> d' →
  emailIsField d → emailIsField d'.
Proof.
  intros Hi Hv. unfold emailIsField.
  rewrite (elementById_ids _ d d' Hi).
  destruct (elementById _ d') as [h|]; [|done].
  by rewrite !lookup_value, Hv.
Qed.

(** On a page whose email element is a field, [validateEmail] ends
    normally with the verdict of the rule. *)
Lemma validateEmail_verdict w :
  emailIsField (document w) →
  fst (validateEmail w) = Normal (emailValid (document w)).
Proof.
  unfold emailIsField, emailValid. rewrite validateEmail_run.
  destruct (elementById _ (document w)) as [h|]; [|done].
  intros [v Hv]. rewrite Hv. simpl. by rewrite length_rule.
Qed.

Lemma messages_differ : warningMessage ≠ successMessage.
Proof. intros Heq. vm_compute in Heq. discriminate. Qed.
(** Which of the two messages [validateForm] picks. *)
Lemma verdict_message (n : Z) (b : bool) :
  ((if (0 <? n) || negb b then warningMessage else successMessage)
   = warningMessage ↔ 0 < n ∨ b = false)
  ∧ ((if (0 <? n) || negb b then warningMessage else successMessage)
     = successMessage ↔ ¬ (0 < n ∨ b = false)).
Proof.
  assert ((0 <? n) || negb b = true ↔ 0 < n ∨ b = false) as Hc
    by by rewrite orb_true_iff, Z.ltb_lt, negb_true_iff.
  pose proof messages_differ as Hne.
  destruct ((0 <? n) || negb b); split; split.
  - intros _. by apply Hc.
  - done.
  - intros H. by destruct Hne.
  - intros H. destruct H. by apply Hc.
  - intros H. symmetry in H. by destruct Hne.
  - intros H. apply Hc in H. discriminate.
  - intros _ H. apply Hc in H. discriminate.
  - done.
Qed.
End EmailRule.

(** ** The scenarios of the specification *)

Section Scenarios.
Import Page.

Example scenarioA_checkMissing :
  fst (checkMissing scenarioA) = Normal 1
  ∧ document (snd (checkMissing scenarioA)) !! 3%nat
    = Some {| elementId := lit "missing-count"; classList := []; value := None;
              textContent := lit "1 required field(s) still incomplete.";
              style_color := lit "red" |}.
Proof. by vm_compute. Qed.

Example scenarioB_both :
  fst (checkMissing scenarioB) = Normal 0
  ∧ textContent <$> document (snd (checkMissing scenarioB)) !! 3%nat
    = Some (lit "All required fields completed.")
  ∧ style_color <$> document (snd (checkMissing scenarioB)) !! 3%nat
    = Some (lit "green")
  ∧ fst (validateEmail scenarioB) = Normal true
  ∧ classList <$> document (snd (validateEmail scenarioB)) !! 2%nat
    = Some [lit "required"].
Proof. by vm_compute. Qed.

Example scenarioC_validateForm :
  alerts (snd (validateForm scenarioC)) = [warningMessage]
  ∧ classList <$> document (snd (validateForm scenarioC)) !! 1%nat
    = Some [lit "required"; lit "invalid"].
Proof. by vm_compute. Qed.

Example scenarioD_validateForm :
  validateForm scenarioD
  = (Normal (),
     {| document := document (snd (checkMissing scenarioD));
        alerts := [successMessage]; defaultPrevented := false |}).
Proof. by vm_compute. Qed.

Example noStatus_checkMissing : checkMissing noStatus = (Normal 1, noStatus).
Proof. by vm_compute. Qed.
End Scenarios.

(** ** The checks *)

(** C1. On a page whose required-tagged elements are fields, [checkMissing]
    returns exactly the number of those fields whose value is the empty
    string once leading and trailing whitespace is removed. That number is
    not negative, a field counts as missing exactly when its value holds
    nothing but whitespace, and trimming takes away a whitespace prefix
    and a whitespace suffix and nothing else. *)
Theorem checkMissing_counts_missing (w : World) :
  requiredAreFields (document w) →
  fst (checkMissing w) = Normal (missingFields (document w))
  ∧ 0 ≤ missingFields (document w)
  ∧ (∀ e v, e ∈ document w → lit "required" ∈ classList e →
       value e = Some v → (isMissing e ↔ allWhiteSpace v = true))
  ∧ (∀ v, ∃ l r, v = l ++ trim v ++ r
       ∧ allWhiteSpace l = true ∧ allWhiteSpace r = true
       ∧ (isWhiteSpace <$> head (trim v)) ≠ Some true
       ∧ (isWhiteSpace <$> last (trim v)) ≠ Some true).
Proof.
  intros Hfields. split_and!.
  - rewrite checkMissing_run, (scan_fields _ 0 Hfields). simpl.
    f_equal; lia.
  - apply missingFields_nonneg.
  - intros e v _ Hreq Hv. unfold isMissing. rewrite Hv. simpl.
    rewrite <- trim_nil_iff. split.
    + intros [_ Ht]. by simplify_eq.
    + intros Ht. split; [done|]. by rewrite Ht.
  - apply trim_split.
Qed.

Lemma checkMissing_counts_missing_witness :
  requiredAreFields (document Page.noStatus)
  ∧ fst (checkMissing Page.noStatus) = Normal (missingFields (document Page.noStatus))
  ∧ missingFields (document Page.noStatus) = 1.
Proof.
  assert (requiredAreFields (document Page.noStatus)) as Hfields
    by (apply (bool_decide_unpack _); vm_compute; exact I).
  split_and!; [exact Hfields| |reflexivity].
  exact (proj1 (checkMissing_counts_missing Page.noStatus Hfields)).
Defined.

(** C2. When the email field exists and holds the text [v],
    [validateEmail] returns true if and only if [v] trimmed is at least 8
    code units long: a trimmed length of exactly 8 gives true, one of 7
    gives false. *)
Theorem validateEmail_length_rule (w : World) (h : nat) (v : jsstring) :
  elementById (lit "email") (document w) = Some h →
  document w !! h ≫= value = Some v →
  ∃ b, fst (validateEmail w) = Normal b
       ∧ (b = true ↔ (8 ≤ length (trim v))%nat)
       ∧ (length (trim v) = 8%nat → b = true)
       ∧ (length (trim v) = 7%nat → b = false).
Proof.
  intros Hh Hv. exists (8 <=? Z.of_nat (length (trim v))).
  rewrite validateEmail_run, Hh, Hv. simpl.
  split; [done|]. split; [|split].
  - rewrite Z.leb_le. lia.
  - intros ->. done.
  - intros ->. done.
Qed.

Lemma validateEmail_length_rule_witness :
  elementById (lit "email") (document Page.scenarioB) = Some 2%nat
  ∧ document Page.scenarioB !! 2%nat ≫= value = Some (lit "abcdefgh")
  ∧ ∃ b, fst (validateEmail Page.scenarioB) = Normal b
       ∧ (b = true ↔ (8 ≤ length (trim (lit "abcdefgh")))%nat)
       ∧ (length (trim (lit "abcdefgh")) = 8%nat → b = true)
       ∧ (length (trim (lit "abcdefgh")) = 7%nat → b = false).
Proof.
  split_and!; [reflexivity..|].
  apply (validateEmail_length_rule Page.scenarioB 2 (lit "abcdefgh"));
    reflexivity.
Defined.

(** C5. Without an email field [validateEmail] returns true, throws
    nothing and leaves the whole world, every element included, as it
    was. *)
Theorem validateEmail_absent_field (w : World) :
  elementById (lit "email") (document w) = None →
  validateEmail w = (Normal true, w).
Proof. intros Hh. by rewrite validateEmail_run, Hh. Qed.

Lemma validateEmail_absent_field_witness :
  elementById (lit "email") (document Page.scenarioD) = None
  ∧ validateEmail Page.scenarioD = (Normal true, Page.scenarioD).
Proof.
  split; [reflexivity|].
  apply (validateEmail_absent_field Page.scenarioD). reflexivity.
Defined.

(** C6. Without a status display [checkMissing] renders nothing (the world
    is left as it was), throws nothing and still returns the number of
    missing required fields. *)
Theorem checkMissing_absent_status (w : World) :
  elementById (lit "missing-count") (document w) = None →
  requiredAreFields (document w) →
  checkMissing w = (Normal (missingFields (document w)), w).
Proof.
  intros Hh Hfields.
  rewrite checkMissing_run, (scan_fields _ 0 Hfields).
  unfold afterCheckMissing. rewrite Hh. simpl. repeat f_equal; lia.
Qed.

Lemma checkMissing_absent_status_witness :
  elementById (lit "missing-count") (document Page.noStatus) = None
  ∧ requiredAreFields (document Page.noStatus)
  ∧ checkMissing Page.noStatus
    = (Normal (missingFields (document Page.noStatus)), Page.noStatus).
Proof.
  assert (requiredAreFields (document Page.noStatus)) as Hfields
    by (apply (bool_decide_unpack _); vm_compute; exact I).
  split_and!; [reflexivity|exact Hfields|].
  apply (checkMissing_absent_status Page.noStatus); [reflexivity|exact Hfields].
Defined.

(** C7. When the status display exists, [checkMissing] leaves it showing
    the count followed by " required field(s) still incomplete." in red when
    fields are missing, and "All required fields completed." in green when
    none is. *)
Theorem checkMissing_renders_status (w : World) (h : nat) :
  elementById (lit "missing-count") (document w) = Some h →
  requiredAreFields (document w) →
  ∃ e', document (snd (checkMissing w)) !! h = Some e'
    ∧ (0 < missingFields (document w) →
         textContent e'
         = numberToString (missingFields (document w))
           ++ lit " required field(s) still incomplete."
         ∧ style_color e' = lit "red")
    ∧ (missingFields (document w) = 0 →
         textContent e' = lit "All required fields completed."
         ∧ style_color e' = lit "green").
Proof.
  intros Hh Hfields.
  destruct (elementById_Some _ _ _ Hh) as (e & He & _).
  exists (renderStatus (missingFields (document w)) e).
  rewrite checkMissing_run, (scan_fields _ 0 Hfields).
  replace (0 + missingFields (document w)) with (missingFields (document w))
    by lia.
  simpl. unfold afterCheckMissing. rewrite Hh. simpl.
  rewrite list_lookup_alter_eq, He. split; [done|].
  unfold statusText, statusColor. split.
  - intros Hpos. apply Z.ltb_lt in Hpos. by rewrite Hpos.
  - intros ->. done.
Qed.

Lemma checkMissing_renders_status_witness :
  elementById (lit "missing-count") (document Page.scenarioA) = Some 3%nat
  ∧ requiredAreFields (document Page.scenarioA)
  ∧ ∃ e', document (snd (checkMissing Page.scenarioA)) !! 3%nat = Some e'
    ∧ (0 < missingFields (document Page.scenarioA) →
         textContent e'
         = numberToString (missingFields (document Page.scenarioA))
           ++ lit " required field(s) still incomplete."
         ∧ style_color e' = lit "red")
    ∧ (missingFields (document Page.scenarioA) = 0 →
         textContent e' = lit "All required fields completed."
         ∧ style_color e' = lit "green").
Proof.
  assert (requiredAreFields (document Page.scenarioA)) as Hfields
    by (apply (bool_decide_unpack _); vm_compute; exact I).
  split_and!; [reflexivity|exact Hfields|].
  apply (checkMissing_renders_status Page.scenarioA 3);
    [reflexivity|exact Hfields].
Defined.

(** C8. When the email field exists and holds the text [v], after
    [validateEmail] the class [invalid] is on the field if and only if [v]
    trimmed is shorter than 8 code units. *)
Theorem validateEmail_marks_invalid (w : World) (h : nat) (v : jsstring) :
  elementById (lit "email") (document w) = Some h →
  document w !! h ≫= value = Some v →
  ∃ e', document (snd (validateEmail w)) !! h = Some e'
    ∧ (lit "invalid" ∈ classList e' ↔ (length (trim v) < 8)%nat).
Proof.
  intros Hh Hv.
  destruct (elementById_Some _ _ _ Hh) as (e & He & _).
  exists (markEmail (8 <=? Z.of_nat (length (trim v))) e).
  rewrite validateEmail_run, Hh, Hv. simpl.
  rewrite list_lookup_alter_eq, He. split; [done|].
  rewrite length_rule. unfold markEmail. simpl. case_bool_decide.
  - rewrite tokenRemove_elem. split; [tauto|lia].
  - split; [lia|]. intros _. apply tokenAdd_elem.
Qed.

Lemma validateEmail_marks_invalid_witness :
  elementById (lit "email") (document Page.scenarioC) = Some 1%nat
  ∧ document Page.scenarioC !! 1%nat ≫= value = Some (lit "short")
  ∧ ∃ e', document (snd (validateEmail Page.scenarioC)) !! 1%nat = Some e'
    ∧ (lit "invalid" ∈ classList e' ↔ (length (trim (lit "short")) < 8)%nat).
Proof.
  split_and!; [reflexivity..|].
  apply (validateEmail_marks_invalid Page.scenarioC 1 (lit "short"));
    reflexivity.
Defined.

(** C3. On a page whose required-tagged elements and email element are
    fields, [validateForm] runs [checkMissing] and then [validateEmail],
    and shows exactly one alert: the warning if and only if a field is
    missing or the email is invalid, the success message otherwise. *)
Theorem validateForm_notifies_once (w : World) :
  requiredAreFields (document w) →
  emailIsField (document w) →
  ∃ w1 w2 w3 msg,
    checkMissing w = (Normal (missingFields (document w)), w1)
    ∧ validateEmail w1 = (Normal (emailValid (document w)), w2)
    ∧ validateForm w = (Normal (), w3)
    ∧ document w3 = document w2
    ∧ alerts w3 = alerts w ++ [msg]
    ∧ (msg = warningMessage ↔
         0 < missingFields (document w) ∨ emailValid (document w) = false)
    ∧ (msg = successMessage ↔
         ¬ (0 < missingFields (document w) ∨ emailValid (document w) = false)).
Proof.
  intros Hfields Hemail.
  set (n := missingFields (document w)). set (b := emailValid (document w)).
  assert (checkMissing w = (Normal n, afterCheckMissing n w)) as Hcheck.
  { rewrite checkMissing_run, (scan_fields _ 0 Hfields). simpl.
    by replace (0 + missingFields (document w)) with n by (unfold n; lia). }
  pose proof (afterCheckMissing_inputs elementId n w (λ _ _, eq_refl)) as Hids.
  pose proof (afterCheckMissing_inputs value n w (λ _ _, eq_refl)) as Hvals.
  assert (fst (validateEmail (afterCheckMissing n w)) = Normal b) as Hverdict.
  { rewrite validateEmail_verdict.
    - f_equal. by apply emailValid_inputs.
    - by apply (emailIsField_inputs (document w)). }
  destruct (frame_checkMissing w) as (_ & Ha1 & _).
  destruct (frame_validateEmail (afterCheckMissing n w)) as (_ & Ha2 & _).
  rewrite Hcheck in Ha1. simpl in Ha1.
  destruct (validateEmail (afterCheckMissing n w)) as [r w2] eqn:Hvalidate.
  simpl in Hverdict, Ha2. subst r.
  exists (afterCheckMissing n w), w2.
  eexists. exists (if (0 <? n) || negb b then warningMessage else successMessage).
  split_and!; [done|done| | | | |].
  - rewrite validateForm_run, Hcheck, Hvalidate. reflexivity.
  - done.
  - simpl. by rewrite Ha2, Ha1.
  - apply verdict_message.
  - apply verdict_message.
Qed.

Lemma validateForm_notifies_once_witness :
  requiredAreFields (document Page.scenarioC)
  ∧ emailIsField (document Page.scenarioC)
  ∧ ∃ w1 w2 w3 msg,
      checkMissing Page.scenarioC
      = (Normal (missingFields (document Page.scenarioC)), w1)
      ∧ validateEmail w1 = (Normal (emailValid (document Page.scenarioC)), w2)
      ∧ validateForm Page.scenarioC = (Normal (), w3)
      ∧ document w3 = document w2
      ∧ alerts w3 = alerts Page.scenarioC ++ [msg]
      ∧ (msg = warningMessage ↔
           0 < missingFields (document Page.scenarioC)
           ∨ emailValid (document Page.scenarioC) = false)
      ∧ (msg = successMessage ↔
           ¬ (0 < missingFields (document Page.scenarioC)
              ∨ emailValid (document Page.scenarioC) = false)).
Proof.
  assert (requiredAreFields (document Page.scenarioC)) as Hfields
    by (apply (bool_decide_unpack _); vm_compute; exact I).
  assert (emailIsField (document Page.scenarioC)) as Hemail
    by (apply (bool_decide_unpack _); vm_compute; exact I).
  split_and!; [exact Hfields|exact Hemail|].
  exact (validateForm_notifies_once Page.scenarioC Hfields Hemail).
Defined.

(** C4. [validateForm] never cancels the event it handles: it leaves the
    cancelled flag as it found it, so a click dispatched at any element,
    under any listener wiring, ends with the flag clear and the default
    action free to proceed, whatever the validation found. *)
Theorem validateForm_never_prevents_default
    (w : World) (ls : Listeners) (h : nat) :
  defaultPrevented (snd (validateForm w)) = defaultPrevented w
  ∧ fst (dispatchEvent ls (ClickEvent h) w) = Normal true
  ∧ defaultPrevented (snd (dispatchEvent ls (ClickEvent h) w)) = false.
Proof.
  split; [apply frame_validateForm|].
  unfold dispatchEvent, bind, clearDefaultPrevented, getDefaultPrevented,
    runListener, ret.
  case_decide; simpl; [|done].
  match goal with |- context [validateForm ?w0] =>
    destruct (frame_validateForm w0) as (_ & _ & Hflag) end.
  simpl in Hflag. by rewrite Hflag.
Qed.

(** C9. Calling [checkMissing] again, or [validateEmail] again, any number
    of times on an otherwise untouched page gives on every call the result
    and the world (status text and colour, invalid marker, everything
    else) of the first call. *)
Theorem checks_are_idempotent (k : nat) (w : World) :
  again checkMissing k w = checkMissing w
  ∧ again validateEmail k w = validateEmail w.
Proof.
  split; apply again_fixed.
  - apply checkMissing_twice.
  - apply validateEmail_twice.
Qed.

(** C10. None of [checkMissing], [validateEmail] and [validateForm] changes
    the value of any element. All they may change is the text and colour
    of the status display, the presence of the class [invalid] on the email
    field and, for [validateForm], the list of alerts shown, to which it
    adds nothing or one of its two messages. *)
Theorem operations_keep_field_values (w : World) :
  (value <$> document (snd (checkMissing w)) = value <$> document w
   ∧ frameDocument (document w) (document (snd (checkMissing w)))
   ∧ alerts (snd (checkMissing w)) = alerts w)
  ∧ (value <$> document (snd (validateEmail w)) = value <$> document w
     ∧ frameDocument (document w) (document (snd (validateEmail w)))
     ∧ alerts (snd (validateEmail w)) = alerts w)
  ∧ (value <$> document (snd (validateForm w)) = value <$> document w
     ∧ frameDocument (document w) (document (snd (validateForm w)))
     ∧ (alerts (snd (validateForm w)) = alerts w
        ∨ alerts (snd (validateForm w)) = alerts w ++ [warningMessage]
        ∨ alerts (snd (validateForm w)) = alerts w ++ [successMessage])).
Proof.
  destruct (frame_checkMissing w) as (Hc & Hca & _).
  destruct (frame_validateEmail w) as (He & Hea & _).
  destruct (frame_validateForm w) as (Hf & Hfa & _).
  split_and!; try done; by apply frameDocument_values.
Qed.

(** ** Which elements the script looks at *)

Section Selection.
Implicit Types d : list Element.
Implicit Types e : Element.

Lemma required_not_invalid : lit "required" ≠ lit "invalid".
Proof. intros Heq. vm_compute in Heq. discriminate. Qed.

Lemma elem_of_selectClass c i d h :
  h ∈ selectClass c i d ↔
  (i ≤ h)%nat ∧ ∃ e, d !! (h - i)%nat = Some e ∧ c ∈ classList e.
Proof.
  revert i. induction d as [|e d IH]; intros i; simpl.
  - split; [by intros ?%elem_of_nil|by intros (_ & ? & ? & _)].
  - assert (h ∈ selectClass c (S i) d ↔
            (i < h)%nat ∧ ∃ e', (e :: d) !! (h - i)%nat = Some e' ∧ c ∈ classList e')
      as Htail.
    { rewrite IH. split.
      - intros (Hle & e' & He' & Hc). split; [lia|]. exists e'.
        replace (h - i)%nat with (S (h - S i)) by lia. done.
      - intros (Hlt & e' & He' & Hc). split; [lia|]. exists e'.
        replace (h - i)%nat with (S (h - S i)) in He' by lia. done. }
    case_decide as Hc.
    + rewrite elem_of_cons, Htail. split.
      * intros [->|(Hlt & He)]; [|split; [lia|done]].
        split; [done|]. exists e. by rewrite Nat.sub_diag.
      * intros (Hle & He). destruct (decide (h = i)) as [->|]; [by left|].
        right. split; [lia|done].
    + rewrite Htail. split.
      * intros (Hlt & He). split; [lia|done].
      * intros (Hle & e' & He' & Hc'). split; [|by exists e'].
        destruct (decide (h = i)) as [->|]; [|lia].
        rewrite Nat.sub_diag in He'. by simplify_eq/=.
Qed.

Lemma NoDup_selectClass c i d : NoDup (selectClass c i d).
Proof.
  revert i. induction d as [|e d IH]; intros i; simpl; [constructor|].
  case_decide; [|done]. apply NoDup_cons. split; [|done].
  rewrite elem_of_selectClass. lia.
Qed.

Lemma length_selectClass c i d : (length (selectClass c i d) ≤ length d)%nat.
Proof.
  revert i. induction d as [|e d IH]; intros i; simpl; [done|].
  specialize (IH (S i)). case_decide; simpl; lia.
Qed.

(** The selection looks at membership of the class only. *)
Lemma selectClass_ext c i d d' :
  Forall2 (λ e e', c ∈ classList e' ↔ c ∈ classList e) d d' →
  selectClass c i d' = selectClass c i d.
Proof.
  intros Hd. revert i. induction Hd as [|e e' d d' He Hd IH]; intros i;
    simpl; [done|].
  rewrite IH. by repeat case_decide; try tauto.
Qed.

Lemma scan_sameInputs d d' n :
  Forall2 sameInputs d d' → scan d' n = scan d n.
Proof.
  intros Hd. revert n.
  induction Hd as [|e e' d d' (_ & Hv & Hc) Hd IH]; intros n; simpl; [done|].
  rewrite Hv. repeat case_decide; try tauto; [|done].
  by destruct (value e).
Qed.

Lemma frameDocument_sameInputs d d' :
  frameDocument d d' → Forall2 sameInputs d d'.
Proof.
  intros [Hlen Hd]. apply Forall2_same_length_lookup_2; [done|].
  intros h e e' He He'. destruct (Hd h e e' He He') as (Hi & Hv & _ & _ & Ht).
  split_and!; [done..|]. apply Ht, required_not_invalid.
Qed.

Lemma frame_scan d d' n : frameDocument d d' → scan d' n = scan d n.
Proof. intros. by apply scan_sameInputs, frameDocument_sameInputs. Qed.

Lemma frame_selectClass d d' i :
  frameDocument d d' →
  selectClass (lit "required") i d' = selectClass (lit "required") i d.
Proof.
  intros Hd. apply selectClass_ext.
  eapply Forall2_impl; [by apply frameDocument_sameInputs|].
  by intros e e' (_ & _ & ?).
Qed.

(** The loop ends normally exactly on the pages whose tagged elements are
    fields. *)
Lemma scan_Normal_iff d n :
  (∃ m, scan d n = Normal m) ↔ requiredAreFields d.
Proof.
  split; [|intros Hd; rewrite (scan_fields _ _ Hd); eauto].
  unfold requiredAreFields. revert n.
  induction d as [|e d IH]; intros n [m Hm]; simpl in *; [constructor|].
  case_decide as Hreq.
  - destruct (value e) as [v|] eqn:Hv; [|done].
    constructor; [by intros _; eexists|]. by eapply IH; eexists.
  - constructor; [done|]. by eapply IH; eexists.
Qed.

Lemma scan_Throw d n :
  ¬ requiredAreFields d → scan d n = Throw TypeError.
Proof.
  intros Hd. destruct (scan d n) as [m|[]] eqn:Hs; [|done].
  destruct Hd. apply (scan_Normal_iff d n). eauto.
Qed.

Lemma missingFields_cons e d :
  missingFields (e :: d)
  = (if decide (isMissing e) then 1 else 0) + missingFields d.
Proof.
  unfold missingFields. rewrite filter_cons.
  destruct (decide (isMissing e)); simpl length; lia.
Qed.

Lemma missingFields_le d i :
  missingFields d ≤ Z.of_nat (length (selectClass (lit "required") i d)).
Proof.
  revert i. induction d as [|e d IH]; intros i; [done|].
  rewrite missingFields_cons. simpl. specialize (IH (S i)).
  destruct (decide (isMissing e)) as [[Hreq _]|].
  - rewrite decide_True by done. simpl length. lia.
  - case_decide; simpl length; lia.
Qed.

Lemma missingFields_zero d :
  missingFields d = 0 ↔ Forall (λ e, ¬ isMissing e) d.
Proof.
  induction d as [|e d IH]; [by split; [constructor|]|].
  rewrite missingFields_cons, Forall_cons, <- IH.
  pose proof (missingFields_nonneg d).
  destruct (decide (isMissing e)); split; try lia; tauto.
Qed.
End Selection.

(** ** The two checks side by side, and the listeners *)

Section Listening.
Implicit Types d : list Element.
Implicit Types w : World.

Lemma render_mark_swap n ok hs he d :
  alter (markEmail ok) he (alter (renderStatus n) hs d)
  = alter (renderStatus n) hs (alter (markEmail ok) he d).
Proof.
  destruct (decide (he = hs)) as [->|Hne].
  - rewrite !list_alter_alter_eq. by apply list_alter_ext.
  - by apply list_alter_alter_ne.
Qed.

Lemma after_swap n ok he w :
  afterValidateEmail he ok (afterCheckMissing n w)
  = afterCheckMissing n (afterValidateEmail he ok w).
Proof.
  unfold afterCheckMissing. simpl.
  rewrite (elementById_alter _ (markEmail ok)) by done.
  destruct (elementById _ (document w)) as [hs|]; [|done].
  unfold afterValidateEmail, withDocument. simpl. f_equal.
  apply render_mark_swap.
Qed.

Lemma checkMissing_after_validateEmail w :
  fst (checkMissing (snd (validateEmail w))) = fst (checkMissing w).
Proof.
  destruct (frame_validateEmail w) as (Hd & _).
  rewrite !checkMissing_run, (frame_scan _ _ 0 Hd).
  by destruct (scan (document w) 0).
Qed.

Lemma validateEmail_after_checkMissing w :
  validateEmail (snd (checkMissing w))
  = (fst (validateEmail w), snd (checkMissing (snd (validateEmail w)))).
Proof.
  destruct (frame_validateEmail w) as (Hd & _).
  rewrite (checkMissing_run (snd (validateEmail w))), (frame_scan _ _ 0 Hd).
  rewrite (checkMissing_run w).
  destruct (scan (document w) 0) as [n|x]; simpl;
    [|by destruct (validateEmail w)].
  rewrite (validateEmail_run (afterCheckMissing n w)), (validateEmail_run w).
  rewrite (elementById_ids _ (document (afterCheckMissing n w)) (document w))
    by (by apply afterCheckMissing_inputs).
  destruct (elementById (lit "email") (document w)) as [he|]; [|done].
  rewrite lookup_value, (afterCheckMissing_inputs value) by done.
  rewrite <- lookup_value.
  destruct (document w !! he ≫= value) as [v|]; simpl; [|done].
  by rewrite after_swap.
Qed.

Lemma onInput_run h w :
  onInput h w =
  match checkMissing w with
  | (Normal _, w1) =>
      if decide (elementId <$> document w1 !! h = Some (lit "email")) then
        match validateEmail w1 with
        | (Normal _, w2) => (Normal (), w2)
        | (Throw x, w2) => (Throw x, w2)
        end
      else (Normal (), w1)
  | (Throw x, w1) => (Throw x, w1)
  end.
Proof.
  unfold onInput, bind, getId, ret.
  destruct (checkMissing w) as [[n|x] w1]; [|done].
  case_decide; [|done].
  by destruct (validateEmail w1) as [[b|x] w2].
Qed.

Lemma frame_onInput h w :
  frameDocument (document w) (document (snd (onInput h w)))
  ∧ alerts (snd (onInput h w)) = alerts w
  ∧ defaultPrevented (snd (onInput h w)) = defaultPrevented w.
Proof.
  rewrite onInput_run.
  destruct (frame_checkMissing w) as (Hd1 & Ha1 & Hp1).
  destruct (checkMissing w) as [[n|x] w1]; simpl in *; [|done].
  case_decide; [|done].
  destruct (frame_validateEmail w1) as (Hd2 & Ha2 & Hp2).
  destruct (validateEmail w1) as [[b|x] w2]; simpl in *;
    (split; [by eapply frameDocument_trans|split; congruence]).
Qed.

Lemma dispatchEvent_run ls ev w :
  dispatchEvent ls ev w =
  let w0 := {| document := document w; alerts := alerts w;
               defaultPrevented := false |} in
  let w1 :=
    match ev with
    | InputEvent h =>
        if decide (h ∈ inputListeners ls) then snd (onInput h w0) else w0
    | ClickEvent h =>
        if decide (clickListener ls = Some h) then snd (validateForm w0)
        else w0
    end in
  (Normal (negb (defaultPrevented w1)), w1).
Proof.
  unfold dispatchEvent, bind, clearDefaultPrevented, getDefaultPrevented,
    runListener, ret.
  destruct ev as [h|h]; simpl; by case_decide.
Qed.
End Listening.

(** ** What trimming leaves is determined by the string *)

Section TrimUnique.
Implicit Types s l r t : jsstring.

Lemma trimStart_app_ws l s :
  allWhiteSpace l = true → trimStart (l ++ s) = trimStart s.
Proof.
  induction l as [|c l IH]; simpl; [done|].
  intros [Hc Hl]%andb_true_iff. rewrite Hc. by apply IH.
Qed.

Lemma trimStart_fixed s :
  (isWhiteSpace <$> head s) ≠ Some true → trimStart s = s.
Proof.
  destruct s as [|c s]; simpl; [done|].
  by destruct (isWhiteSpace c).
Qed.

Lemma trimEnd_app_ws s r :
  allWhiteSpace r = true → trimEnd (s ++ r) = trimEnd s.
Proof.
  intros Hr. unfold trimEnd. rewrite reverse_app, trimStart_app_ws; [done|].
  by rewrite allWhiteSpace_reverse.
Qed.

Lemma trimEnd_fixed s :
  (isWhiteSpace <$> last s) ≠ Some true → trimEnd s = s.
Proof.
  intros Hs. unfold trimEnd. rewrite trimStart_fixed.
  - apply reverse_involutive.
  - by rewrite head_reverse.
Qed.

(** Whitespace around a core that neither starts nor ends with whitespace
    is exactly what [trim] removes. *)
Lemma trim_unique l t r :
  allWhiteSpace l = true → allWhiteSpace r = true →
  (isWhiteSpace <$> head t) ≠ Some true →
  (isWhiteSpace <$> last t) ≠ Some true →
  trim (l ++ t ++ r) = t.
Proof.
  intros Hl Hr Hh Hlast. unfold trim. rewrite trimStart_app_ws by done.
  destruct t as [|c t]; simpl.
  - rewrite (proj2 (trimStart_nil_iff r) Hr). done.
  - simpl in Hh. destruct (isWhiteSpace c) eqn:Hc; [done|].
    change (c :: t ++ r) with ((c :: t) ++ r).
    rewrite trimEnd_app_ws by done. by apply trimEnd_fixed.
Qed.

Lemma trim_nonblank (v : jsstring) :
  trim v ≠ [] ↔ allWhiteSpace v = false.
Proof.
  rewrite trim_nil_iff. by destruct (allWhiteSpace v).
Qed.
End TrimUnique.

(** ** Further helper facts *)

Section Helpers.
Implicit Types d : list Element.
Implicit Types e : Element.
Implicit Types w : World.

Lemma validateEmail_keeps {B} (p : Element → B) w :
  (∀ ok e, p (markEmail ok e) = p e) →
  p <$> document (snd (validateEmail w)) = p <$> document w.
Proof.
  intros Hp. rewrite validateEmail_run.
  destruct (elementById _ (document w)) as [h|]; [|done].
  destruct (document w !! h ≫= value) as [v|]; [|done].
  simpl. by apply fmap_alter_preserved.
Qed.

Lemma not_isMissing_filled e :
  (lit "required" ∈ classList e → is_Some (value e)) →
  ¬ isMissing e ↔ (lit "required" ∈ classList e → isFilled e).
Proof.
  intros He. unfold isMissing, isFilled. split.
  - intros Hm Hreq. destruct (He Hreq) as [v Hv]. exists v. split; [done|].
    apply trim_nonblank. intros Ht. apply Hm. split; [done|].
    by rewrite Hv; simpl; rewrite Ht.
  - intros Hf [Hreq Hm]. destruct (Hf Hreq) as (v & Hv & Hws).
    rewrite Hv in Hm. simpl in Hm. apply trim_nonblank in Hws.
    by simplify_eq.
Qed.

Lemma all_filled_iff d :
  requiredAreFields d →
  missingFields d = 0 ↔
  Forall (λ e, lit "required" ∈ classList e → isFilled e) d.
Proof.
  intros Hd. rewrite missingFields_zero. unfold requiredAreFields in Hd.
  rewrite !Forall_forall in *. split; intros H e He.
  - by apply not_isMissing_filled; auto.
  - by apply not_isMissing_filled; auto.
Qed.

Lemma validateEmail_Normal_iff w :
  (∃ b, fst (validateEmail w) = Normal b) ↔ emailIsField (document w).
Proof.
  rewrite validateEmail_run. unfold emailIsField.
  destruct (elementById _ (document w)) as [h|]; [|by split; [|eexists]].
  destruct (document w !! h ≫= value) as [v|]; simpl.
  - split; [by eexists|by eexists].
  - split; [by intros [? ?]|by intros [? ?]].
Qed.

Lemma validateEmail_Throw w :
  ¬ emailIsField (document w) → validateEmail w = (Throw TypeError, w).
Proof.
  rewrite validateEmail_run. unfold emailIsField.
  destruct (elementById _ (document w)) as [h|]; [|done].
  destruct (document w !! h ≫= value) as [v|]; [|done].
  intros []. by eexists.
Qed.

Lemma checkMissing_fields w :
  requiredAreFields (document w) →
  checkMissing w
  = (Normal (missingFields (document w)),
     afterCheckMissing (missingFields (document w)) w).
Proof.
  intros Hd. rewrite checkMissing_run, (scan_fields _ 0 Hd).
  by replace (0 + missingFields (document w))
    with (missingFields (document w)) by lia.
Qed.

Lemma checkMissing_Throw w :
  ¬ requiredAreFields (document w) → checkMissing w = (Throw TypeError, w).
Proof. intros Hd. by rewrite checkMissing_run, (scan_Throw _ 0 Hd). Qed.

Lemma emailIsField_after_checkMissing w :
  emailIsField (document (snd (checkMissing w))) ↔ emailIsField (document w).
Proof.
  destruct (frame_checkMissing w) as (Hd & _).
  pose proof (frameDocument_ids _ _ Hd). pose proof (frameDocument_values _ _ Hd).
  split; apply emailIsField_inputs; done.
Qed.
End Helpers.

(** ** The listeners and the error paths *)

(** X1. The load handler changes nothing and attaches an input listener to
    exactly the elements tagged [required], once each; its click listener,
    if any, sits on an element with id [submitBtn], and there is none
    exactly when no element has that id. *)
Theorem wiring_attaches_listeners (w : World) :
  ∃ ls, onDOMContentLoaded w = (Normal ls, w)
    ∧ NoDup (inputListeners ls)
    ∧ (∀ h, h ∈ inputListeners ls ↔
         ∃ e, document w !! h = Some e ∧ lit "required" ∈ classList e)
    ∧ (∀ h, clickListener ls = Some h →
         ∃ e, document w !! h = Some e ∧ elementId e = lit "submitBtn")
    ∧ (clickListener ls = None ↔
         Forall (λ e, elementId e ≠ lit "submitBtn") (document w)).
Proof.
  eexists. split; [reflexivity|]. simpl. split_and!.
  - apply NoDup_selectClass.
  - intros h. rewrite elem_of_selectClass, Nat.sub_0_r.
    split; [by intros [_ ?]|]. intros ?. split; [lia|done].
  - apply elementById_Some.
  - apply elementById_None.
Qed.

(** X2. On a page without an element of id [submitBtn] no click listener is
    attached: a click at any element, then or later, shows no alert and
    changes no element. *)
Theorem no_submit_button_no_verdict (w : World) :
  elementById (lit "submitBtn") (document w) = None →
  ∃ ls, onDOMContentLoaded w = (Normal ls, w)
    ∧ ∀ h w', dispatchEvent ls (ClickEvent h) w'
        = (Normal true,
           {| document := document w'; alerts := alerts w';
              defaultPrevented := false |}).
Proof.
  intros Hbtn. eexists. split; [reflexivity|]. intros h w'.
  rewrite dispatchEvent_run. simpl. rewrite Hbtn.
  by rewrite decide_False.
Qed.

Lemma no_submit_button_no_verdict_witness :
  elementById (lit "submitBtn") (document Pages.noSubmit) = None
  ∧ ∃ ls, onDOMContentLoaded Pages.noSubmit = (Normal ls, Pages.noSubmit)
    ∧ ∀ h w', dispatchEvent ls (ClickEvent h) w'
        = (Normal true,
           {| document := document w'; alerts := alerts w';
              defaultPrevented := false |}).
Proof.
  split; [reflexivity|].
  apply (no_submit_button_no_verdict Pages.noSubmit). reflexivity.
Defined.

(** X3. [checkMissing] returns normally exactly when every element tagged
    [required] has a text value. Otherwise it throws a TypeError out of the
    loop, before the status display is touched: the world is left as it
    was. *)
Theorem checkMissing_throws_iff (w : World) :
  ((∃ n, fst (checkMissing w) = Normal n) ↔ requiredAreFields (document w))
  ∧ (¬ requiredAreFields (document w) →
       checkMissing w = (Throw TypeError, w)).
Proof.
  split; [|apply checkMissing_Throw].
  rewrite checkMissing_run, <- (scan_Normal_iff _ 0).
  destruct (scan (document w) 0) as [n|x]; simpl.
  - split; by eexists.
  - split; by intros [? ?].
Qed.

(** X4. [validateEmail] returns normally exactly when the page has no
    element of id [email] or that element has a text value. Otherwise it
    throws a TypeError before touching the class list: the world is left as
    it was. *)
Theorem validateEmail_throws_iff (w : World) :
  ((∃ b, fst (validateEmail w) = Normal b) ↔ emailIsField (document w))
  ∧ (¬ emailIsField (document w) → validateEmail w = (Throw TypeError, w)).
Proof. split; [apply validateEmail_Normal_iff|apply validateEmail_Throw]. Qed.

(** X5. [validateForm] returns normally, having shown its alert, exactly
    when the required-tagged elements and the email element have text
    values. Otherwise it throws a TypeError and shows no alert at all: with
    a required-tagged element lacking a value nothing is changed, with only
    the email element lacking one the status display has already been
    rendered. *)
Theorem validateForm_alerts_iff (w : World) :
  (fst (validateForm w) = Normal () ↔
     requiredAreFields (document w) ∧ emailIsField (document w))
  ∧ (fst (validateForm w) ≠ Normal () →
       fst (validateForm w) = Throw TypeError
       ∧ alerts (snd (validateForm w)) = alerts w)
  ∧ (¬ requiredAreFields (document w) →
       validateForm w = (Throw TypeError, w))
  ∧ (requiredAreFields (document w) → ¬ emailIsField (document w) →
       validateForm w = (Throw TypeError, snd (checkMissing w))).
Proof.
  assert (¬ requiredAreFields (document w) →
          validateForm w = (Throw TypeError, w)) as Hbad.
  { intros Hd. by rewrite validateForm_run, (checkMissing_Throw _ Hd). }
  assert (requiredAreFields (document w) → ¬ emailIsField (document w) →
          validateForm w = (Throw TypeError, snd (checkMissing w))) as Hemail.
  { intros Hd He. rewrite validateForm_run.
    rewrite <- emailIsField_after_checkMissing in He.
    rewrite (checkMissing_fields _ Hd) in *. simpl in *.
    by rewrite (validateEmail_Throw _ He). }
  assert (requiredAreFields (document w) → emailIsField (document w) →
          fst (validateForm w) = Normal ()) as Hgood.
  { intros Hd He. rewrite validateForm_run.
    rewrite <- emailIsField_after_checkMissing in He.
    rewrite (checkMissing_fields _ Hd) in *. simpl in *.
    apply validateEmail_Normal_iff in He as [b Hb].
    destruct (validateEmail _) as [r w2]. simpl in Hb. subst r.
    by destruct ((0 <? _) || negb b). }
  destruct (decide (requiredAreFields (document w))) as [Hd|Hd];
    [destruct (decide (emailIsField (document w))) as [He|He]|].
  - split_and!; [by split; auto|by rewrite Hgood|done|done].
  - rewrite (Hemail Hd He). simpl.
    split_and!; [split; [done|tauto]| |done|done].
    intros _. split; [done|]. apply frame_checkMissing.
  - rewrite (Hbad Hd). simpl.
    split_and!; [split; [done|tauto]|done|done|done].
Qed.

(** X6. The two checks do not interfere: each returns the same result
    whether or not the other ran first, and running both leaves the same
    world in either order. *)
Theorem checks_commute (w : World) :
  fst (validateEmail (snd (checkMissing w))) = fst (validateEmail w)
  ∧ fst (checkMissing (snd (validateEmail w))) = fst (checkMissing w)
  ∧ snd (validateEmail (snd (checkMissing w)))
    = snd (checkMissing (snd (validateEmail w))).
Proof.
  rewrite validateEmail_after_checkMissing. simpl.
  split_and!; [done|apply checkMissing_after_validateEmail|done].
Qed.

(** X7. Whenever [checkMissing] returns a count, the count lies between 0
    and the number of elements tagged [required], and it is 0 exactly when
    every such element is filled: its value holds a code unit that is not
    whitespace. *)
Theorem checkMissing_count_bounds (w : World) (n : Z) :
  fst (checkMissing w) = Normal n →
  0 ≤ n ≤ Z.of_nat (length (selectClass (lit "required") 0 (document w)))
  ∧ (n = 0 ↔
       Forall (λ e, lit "required" ∈ classList e → isFilled e) (document w)).
Proof.
  intros Hn.
  assert (requiredAreFields (document w)) as Hd.
  { apply (scan_Normal_iff _ 0). rewrite checkMissing_run in Hn.
    destruct (scan (document w) 0); [by eexists|done]. }
  rewrite (checkMissing_fields _ Hd) in Hn. simpl in Hn. simplify_eq.
  split; [split; [apply missingFields_nonneg|apply missingFields_le]|].
  by apply all_filled_iff.
Qed.

Lemma checkMissing_count_bounds_witness :
  fst (checkMissing Page.scenarioA) = Normal 1
  ∧ 0 ≤ 1 ≤ Z.of_nat
              (length (selectClass (lit "required") 0
                         (document Page.scenarioA)))
  ∧ (1 = 0 ↔
       Forall (λ e, lit "required" ∈ classList e → isFilled e)
         (document Page.scenarioA)).
Proof.
  split; [reflexivity|].
  apply (checkMissing_count_bounds Page.scenarioA 1). reflexivity.
Defined.

(** ** Events *)

Section Events.
Implicit Types d : list Element.
Implicit Types w : World.

(** The world a fresh event starts in. *)
Lemma dispatchEvent_frame ls ev w :
  frameDocument (document w) (document (snd (dispatchEvent ls ev w)))
  ∧ (alerts (snd (dispatchEvent ls ev w)) = alerts w
     ∨ alerts (snd (dispatchEvent ls ev w)) = alerts w ++ [warningMessage]
     ∨ alerts (snd (dispatchEvent ls ev w)) = alerts w ++ [successMessage])
  ∧ defaultPrevented (snd (dispatchEvent ls ev w)) = false.
Proof.
  rewrite dispatchEvent_run. simpl.
  destruct ev as [h|h]; case_decide; simpl;
    try (by split; [apply frameDocument_refl|auto]).
  - match goal with |- context [onInput h ?w0] =>
      destruct (frame_onInput h w0) as (Hd & Ha & Hp) end.
    simpl in *. auto.
  - match goal with |- context [validateForm ?w0] =>
      destruct (frame_validateForm w0) as (Hd & Ha & Hp) end.
    simpl in *. auto.
Qed.

Lemma onInput_keeps {B} (p : Element → B) h w :
  (∀ ok e, p (markEmail ok e) = p e) →
  p <$> document (snd (onInput h w)) = p <$> document (snd (checkMissing w)).
Proof.
  intros Hp. rewrite onInput_run.
  destruct (checkMissing w) as [[n|x] w1]; simpl; [|done].
  case_decide; [|done].
  pose proof (validateEmail_keeps p w1 Hp) as Hv.
  by destruct (validateEmail w1) as [[b|x] w2].
Qed.

Lemma onInput_elsewhere h w :
  elementId <$> document w !! h ≠ Some (lit "email") →
  snd (onInput h w) = snd (checkMissing w).
Proof.
  intros Hid. rewrite onInput_run.
  destruct (frame_checkMissing w) as (Hd & _).
  apply frameDocument_ids in Hd.
  destruct (checkMissing w) as [[n|x] w1]; simpl in *; [|done].
  rewrite decide_False; [done|].
  by rewrite <- list_lookup_fmap, Hd, list_lookup_fmap.
Qed.

Lemma marker_after_validateEmail w h v :
  elementById (lit "email") (document w) = Some h →
  document w !! h ≫= value = Some v →
  fst (validateEmail w) = Normal (8 <=? Z.of_nat (length (trim v)))
  ∧ ∃ e', document (snd (validateEmail w)) !! h = Some e'
    ∧ (lit "invalid" ∈ classList e' ↔ (length (trim v) < 8)%nat).
Proof.
  intros Hh Hv. destruct (elementById_Some _ _ _ Hh) as (e & He & _).
  rewrite validateEmail_run, Hh, Hv. simpl. split; [done|].
  exists (markEmail (8 <=? Z.of_nat (length (trim v))) e).
  rewrite list_lookup_alter_eq, He. split; [done|].
  rewrite length_rule. unfold markEmail. simpl. case_bool_decide.
  - rewrite tokenRemove_elem. split; [tauto|lia].
  - split; [lia|]. intros _. apply tokenAdd_elem.
Qed.
End Events.

(** X8. No event, whatever the wiring, changes what the checks read: every
    element keeps its id and its value, and the elements tagged [required]
    stay the same ones, so the listeners attached at load time stay on
    exactly the fields that [checkMissing] counts. *)
Theorem events_keep_inputs (ls : Listeners) (ev : Event) (w : World) :
  elementId <$> document (snd (dispatchEvent ls ev w))
  = elementId <$> document w
  ∧ value <$> document (snd (dispatchEvent ls ev w)) = value <$> document w
  ∧ selectClass (lit "required") 0 (document (snd (dispatchEvent ls ev w)))
    = selectClass (lit "required") 0 (document w)
  ∧ frameDocument (document w) (document (snd (dispatchEvent ls ev w))).
Proof.
  destruct (dispatchEvent_frame ls ev w) as (Hd & _).
  split_and!; [by apply frameDocument_ids|by apply frameDocument_values
              |by apply frame_selectClass|done].
Qed.

(** X9. No event is ever cancelled, and an input event never shows an
    alert; an input event at an element without a listener changes no
    element at all. *)
Theorem input_events_are_silent (ls : Listeners) (ev : Event) (h : nat)
    (w : World) :
  fst (dispatchEvent ls ev w) = Normal true
  ∧ alerts (snd (dispatchEvent ls (InputEvent h) w)) = alerts w
  ∧ (h ∉ inputListeners ls →
       document (snd (dispatchEvent ls (InputEvent h) w)) = document w).
Proof.
  split_and!.
  - destruct (dispatchEvent_frame ls ev w) as (_ & _ & Hp).
    rewrite dispatchEvent_run in *. simpl in *. by rewrite Hp.
  - rewrite dispatchEvent_run. simpl. case_decide; [|done].
    match goal with |- context [onInput h ?w0] =>
      destruct (frame_onInput h w0) as (_ & Ha & _) end.
    done.
  - intros Hh. rewrite dispatchEvent_run. simpl. by rewrite decide_False.
Qed.

(** X10. Live feedback: on a page whose required-tagged elements are
    fields, an input event at any element that carries an input listener
    leaves the status display showing the line and colour for the current
    number of missing fields, whatever happens to the email check
    afterwards. *)
Theorem input_refreshes_status (ls : Listeners) (h hs : nat) (w : World) :
  h ∈ inputListeners ls →
  requiredAreFields (document w) →
  elementById (lit "missing-count") (document w) = Some hs →
  ∃ e', document (snd (dispatchEvent ls (InputEvent h) w)) !! hs = Some e'
    ∧ textContent e' = statusText (missingFields (document w))
    ∧ style_color e' = statusColor (missingFields (document w)).
Proof.
  intros Hh Hd Hs. rewrite dispatchEvent_run. simpl.
  rewrite decide_True by done.
  set (w0 := {| document := document w; alerts := alerts w;
                defaultPrevented := false |}).
  pose proof (onInput_keeps textContent h w0 (λ _ _, eq_refl)) as Ht.
  pose proof (onInput_keeps style_color h w0 (λ _ _, eq_refl)) as Hc.
  rewrite (checkMissing_fields w0 Hd) in Ht, Hc. simpl in Ht, Hc.
  unfold afterCheckMissing in Ht, Hc. simpl in Ht, Hc. rewrite Hs in Ht, Hc.
  simpl in Ht, Hc.
  destruct (elementById_Some _ _ _ Hs) as (e & He & _).
  apply (f_equal (λ l, l !! hs)) in Ht, Hc.
  rewrite !list_lookup_fmap, list_lookup_alter_eq, He in Ht, Hc.
  destruct (document (snd (onInput h w0)) !! hs) as [e'|]; [|done].
  exists e'. simpl in Ht, Hc. by simplify_eq.
Qed.

Lemma input_refreshes_status_witness :
  (0 ∈ inputListeners (mkListeners [0; 1; 2] (Some 4)))%nat
  ∧ requiredAreFields (document Page.scenarioA)
  ∧ elementById (lit "missing-count") (document Page.scenarioA) = Some 3%nat
  ∧ ∃ e',
      document
        (snd (dispatchEvent (mkListeners [0; 1; 2]%nat (Some 4%nat))
                (InputEvent 0) Page.scenarioA)) !! 3%nat = Some e'
      ∧ textContent e' = statusText (missingFields (document Page.scenarioA))
      ∧ style_color e' = statusColor (missingFields (document Page.scenarioA)).
Proof.
  assert (requiredAreFields (document Page.scenarioA)) as Hfields
    by (apply (bool_decide_unpack _); vm_compute; exact I).
  assert (0 ∈ inputListeners (mkListeners [0; 1; 2] (Some 4)))%nat as Hin
    by (apply (bool_decide_unpack _); vm_compute; exact I).
  split_and!; [exact Hin|exact Hfields|reflexivity|].
  apply (input_refreshes_status _ 0 3 Page.scenarioA);
    [exact Hin|exact Hfields|reflexivity].
Defined.

(** X11. The email marker is only refreshed from the email field itself:
    an input event at an element whose id is not [email] changes no class
    list, so a stale [invalid] marker stays until the email field is typed
    into or the form is submitted. *)
Theorem input_elsewhere_keeps_classes (ls : Listeners) (h : nat) (w : World) :
  elementId <$> document w !! h ≠ Some (lit "email") →
  classList <$> document (snd (dispatchEvent ls (InputEvent h) w))
  = classList <$> document w.
Proof.
  intros Hid. rewrite dispatchEvent_run. simpl. case_decide; [|done].
  rewrite onInput_elsewhere by done. rewrite checkMissing_run. simpl.
  destruct (scan (document w) 0) as [n|x]; [|done].
  by apply (afterCheckMissing_inputs classList n
              {| document := document w; alerts := alerts w;
                 defaultPrevented := false |}).
Qed.

Lemma input_elsewhere_keeps_classes_witness :
  elementId <$> document Page.scenarioC !! 0%nat ≠ Some (lit "email")
  ∧ classList <$> document
      (snd (dispatchEvent (mkListeners [0; 1]%nat (Some 3%nat))
              (InputEvent 0) Page.scenarioC))
    = classList <$> document Page.scenarioC.
Proof.
  assert (elementId <$> document Page.scenarioC !! 0%nat ≠ Some (lit "email"))
    as Hid by (intros Heq; vm_compute in Heq; discriminate).
  split; [exact Hid|].
  apply (input_elsewhere_keeps_classes _ 0 Page.scenarioC). exact Hid.
Defined.

(** X12. Live email feedback: on a page whose required-tagged elements are
    fields, an input event at the email field, when that field carries an
    input listener and holds the text [v], leaves the class [invalid] on it
    if and only if [v] trimmed is shorter than 8 code units. *)
Theorem input_on_email_marks (ls : Listeners) (he : nat) (v : jsstring)
    (w : World) :
  he ∈ inputListeners ls →
  requiredAreFields (document w) →
  elementById (lit "email") (document w) = Some he →
  document w !! he ≫= value = Some v →
  ∃ e', document (snd (dispatchEvent ls (InputEvent he) w)) !! he = Some e'
    ∧ (lit "invalid" ∈ classList e' ↔ (length (trim v) < 8)%nat).
Proof.
  intros Hh Hd He Hv. rewrite dispatchEvent_run. simpl.
  rewrite decide_True by done.
  set (w0 := {| document := document w; alerts := alerts w;
                defaultPrevented := false |}).
  rewrite onInput_run, (checkMissing_fields w0 Hd).
  set (w1 := afterCheckMissing (missingFields (document w0)) w0).
  pose proof (afterCheckMissing_inputs elementId (missingFields (document w0))
                w0 (λ _ _, eq_refl)) as Hids.
  pose proof (afterCheckMissing_inputs value (missingFields (document w0))
                w0 (λ _ _, eq_refl)) as Hvals.
  fold w1 in Hids, Hvals.
  assert (elementById (lit "email") (document w1) = Some he) as He1
    by by rewrite (elementById_ids _ _ _ Hids).
  assert (document w1 !! he ≫= value = Some v) as Hv1
    by by rewrite lookup_value, Hvals, <- lookup_value.
  destruct (elementById_Some _ _ _ He1) as (e1 & He1' & Hid1).
  rewrite decide_True by (by rewrite He1'; simpl; rewrite Hid1).
  destruct (marker_after_validateEmail w1 he v He1 Hv1) as (Hfst & Hmark).
  destruct (validateEmail w1) as [[b|x] w2]; simpl in *; [done|done].
Qed.

Lemma input_on_email_marks_witness :
  (1 ∈ inputListeners (mkListeners [0; 1] (Some 3)))%nat
  ∧ requiredAreFields (document Page.scenarioC)
  ∧ elementById (lit "email") (document Page.scenarioC) = Some 1%nat
  ∧ document Page.scenarioC !! 1%nat ≫= value = Some (lit "short")
  ∧ ∃ e',
      document
        (snd (dispatchEvent (mkListeners [0; 1]%nat (Some 3%nat))
                (InputEvent 1) Page.scenarioC)) !! 1%nat = Some e'
      ∧ (lit "invalid" ∈ classList e' ↔ (length (trim (lit "short")) < 8)%nat).
Proof.
  assert (requiredAreFields (document Page.scenarioC)) as Hfields
    by (apply (bool_decide_unpack _); vm_compute; exact I).
  assert (1 ∈ inputListeners (mkListeners [0; 1] (Some 3)))%nat as Hin
    by (apply (bool_decide_unpack _); vm_compute; exact I).
  split_and!; [exact Hin|exact Hfields|reflexivity|reflexivity|].
  apply (input_on_email_marks _ 1 (lit "short") Page.scenarioC);
    [exact Hin|exact Hfields|reflexivity|reflexivity].
Defined.

(** ** Submitting again *)

Section Resubmit.
Implicit Types w : World.

(** The checks read the document only. *)
Lemma checkMissing_document w w' :
  document w = document w' →
  fst (checkMissing w) = fst (checkMissing w')
  ∧ document (snd (checkMissing w)) = document (snd (checkMissing w')).
Proof.
  intros Hd. rewrite !checkMissing_run, <- Hd.
  destruct (scan (document w) 0) as [n|x]; simpl; [|done].
  split; [done|]. by rewrite !document_afterCheckMissing, <- Hd.
Qed.

Lemma validateEmail_document w w' :
  document w = document w' →
  fst (validateEmail w) = fst (validateEmail w')
  ∧ document (snd (validateEmail w)) = document (snd (validateEmail w')).
Proof.
  intros Hd. rewrite !validateEmail_run, <- Hd.
  destruct (elementById _ (document w)) as [h|]; [|done].
  destruct (document w !! h ≫= value) as [v|]; simpl; [|done].
  by rewrite <- Hd.
Qed.

(** The message of a run of [validateForm], if it gets to show one. *)
Lemma validateForm_parts w :
  ∃ msgs,
    alerts (snd (validateForm w)) = alerts w ++ msgs
    ∧ (length msgs ≤ 1)%nat
    ∧ (fst (validateForm w), msgs) =
      match fst (checkMissing w) with
      | Throw x => (Throw x, [])
      | Normal missing =>
          match fst (validateEmail (snd (checkMissing w))) with
          | Throw x => (Throw x, [])
          | Normal emailOK =>
              (Normal (),
               [if (0 <? missing) || negb emailOK then warningMessage
                else successMessage])
          end
      end
    ∧ document (snd (validateForm w)) =
      match fst (checkMissing w) with
      | Throw _ => document w
      | Normal _ => document (snd (validateEmail (snd (checkMissing w))))
      end.
Proof.
  rewrite validateForm_run.
  destruct (frame_checkMissing w) as (_ & Ha1 & _).
  pose proof (checkMissing_run w) as Hrun.
  destruct (checkMissing w) as [[n|x] w1]; simpl in *.
  - destruct (frame_validateEmail w1) as (_ & Ha2 & _).
    destruct (validateEmail w1) as [[b|x] w2]; simpl in *.
    + eexists. split_and!; [by rewrite Ha2, Ha1| |reflexivity|done].
      simpl. lia.
    + exists []. rewrite app_nil_r. split_and!; [congruence|simpl; lia|done..].
  - exists []. rewrite app_nil_r. split_and!; [done|simpl; lia|done|].
    destruct (scan (document w) 0); by simplify_eq.
Qed.

(** After both checks ran, each of them finds nothing left to do. *)
Lemma checks_settled w :
  let w2 := snd (validateEmail (snd (checkMissing w))) in
  checkMissing w2 = (fst (checkMissing w), w2)
  ∧ validateEmail w2 = (fst (validateEmail (snd (checkMissing w))), w2).
Proof.
  simpl. set (w1 := snd (checkMissing w)). set (w2 := snd (validateEmail w1)).
  assert (checkMissing w1 = checkMissing w) as H1 by apply checkMissing_twice.
  split.
  - pose proof (validateEmail_after_checkMissing w1) as Hswap.
    rewrite H1 in Hswap. fold w1 in Hswap.
    apply (f_equal snd) in Hswap. simpl in Hswap. fold w2 in Hswap.
    pose proof (checkMissing_after_validateEmail w1) as Hfst. fold w2 in Hfst.
    rewrite H1 in Hfst.
    destruct (checkMissing w2) as [r w']. simpl in *. by subst.
  - pose proof (validateEmail_twice w1) as Hv. fold w2 in Hv.
    rewrite Hv. unfold w2. by destruct (validateEmail w1).
Qed.
End Resubmit.

(** X13. Submitting again without touching the page gives the same outcome
    again: [validateForm] returns the same completion, shows once more the
    message it showed the first time (if it showed one), and leaves every
    element as the first run left it. *)
Theorem validateForm_repeats (w : World) :
  fst (validateForm (snd (validateForm w))) = fst (validateForm w)
  ∧ document (snd (validateForm (snd (validateForm w))))
    = document (snd (validateForm w))
  ∧ ∃ msgs,
      (length msgs ≤ 1)%nat
      ∧ alerts (snd (validateForm w)) = alerts w ++ msgs
      ∧ alerts (snd (validateForm (snd (validateForm w))))
        = alerts w ++ msgs ++ msgs.
Proof.
  destruct (validateForm_parts w) as (msgs & Ha & Hlen & Hres & Hdoc).
  destruct (validateForm_parts (snd (validateForm w)))
    as (msgs' & Ha' & _ & Hres' & Hdoc').
  destruct (checks_settled w) as (Hc2 & Hv2).
  set (w1 := snd (checkMissing w)) in *.
  set (w2 := snd (validateEmail w1)) in *.
  set (w' := snd (validateForm w)) in *.
  assert (fst (validateForm w') = fst (validateForm w) ∧ msgs' = msgs
          ∧ document (snd (validateForm w')) = document w') as (Hf & Hm & Hd).
  { destruct (fst (checkMissing w)) as [n|x] eqn:Hcheck.
    - destruct (checkMissing_document w' w2 Hdoc) as (Hc1 & Hc1d).
      rewrite Hc2 in Hc1, Hc1d. simpl in Hc1, Hc1d.
      destruct (validateEmail_document (snd (checkMissing w')) w2 Hc1d)
        as (Hv1 & Hv1d).
      rewrite Hv2 in Hv1, Hv1d. simpl in Hv1, Hv1d.
      rewrite Hc1, Hv1 in Hres'. rewrite Hc1, Hv1d in Hdoc'.
      rewrite <- Hres in Hres'. injection Hres' as Hr' Hm'.
      split_and!; [done|done|]. by rewrite Hdoc', Hdoc.
    - destruct (checkMissing_document w' w Hdoc) as (Hc1 & _).
      rewrite Hcheck in Hc1. rewrite Hc1 in Hres', Hdoc'.
      rewrite <- Hres in Hres'. injection Hres' as Hr' Hm'. done. }
  split_and!; [done|done|].
  exists msgs. split_and!; [done|done|].
  by rewrite Ha', Ha, Hm, app_assoc.
Qed.

(** ** The verdict in terms of what the user typed *)

Lemma validateForm_message (w : World) :
  requiredAreFields (document w) → emailIsField (document w) →
  alerts (snd (validateForm w))
  = alerts w
    ++ [if (0 <? missingFields (document w)) || negb (emailValid (document w))
        then warningMessage else successMessage].
Proof.
  intros Hd He.
  destruct (validateForm_parts w) as (msgs & Ha & _ & Hres & _).
  destruct (frame_checkMissing w) as (Hframe & _).
  pose proof (frameDocument_ids _ _ Hframe) as Hids.
  pose proof (frameDocument_values _ _ Hframe) as Hvals.
  apply emailIsField_after_checkMissing in He.
  rewrite (validateEmail_verdict _ He) in Hres.
  rewrite (emailValid_inputs _ (document w) Hids Hvals) in Hres.
  rewrite (checkMissing_fields _ Hd) in Hres. simpl in Hres.
  injection Hres as _ ->. done.
Qed.

(** X14. On a page whose required-tagged elements and email element are
    fields, [validateForm] shows the success message exactly when every
    required field is filled and the email rule holds, and the warning
    exactly when a required field is blank or the email rule fails. *)
Theorem validateForm_success_iff (w : World) :
  requiredAreFields (document w) →
  emailIsField (document w) →
  (alerts (snd (validateForm w)) = alerts w ++ [successMessage] ↔
     Forall (λ e, lit "required" ∈ classList e → isFilled e) (document w)
     ∧ emailValid (document w) = true)
  ∧ (alerts (snd (validateForm w)) = alerts w ++ [warningMessage] ↔
       ¬ (Forall (λ e, lit "required" ∈ classList e → isFilled e) (document w)
          ∧ emailValid (document w) = true)).
Proof.
  intros Hd He. rewrite (validateForm_message w Hd He).
  rewrite <- (all_filled_iff _ Hd).
  pose proof (missingFields_nonneg (document w)) as Hnn.
  destruct (verdict_message (missingFields (document w))
              (emailValid (document w))) as (Hwarn & Hok).
  split.
  - split.
    + intros Heq%app_inv_head. injection Heq as Heq.
      apply Hok in Heq. destruct (emailValid (document w)).
      * split; [lia|done].
      * destruct Heq. by right.
    + intros [Hz Hv]. do 2 f_equal. apply Hok. rewrite Hv. lia.
  - split.
    + intros Heq%app_inv_head. injection Heq as Heq.
      apply Hwarn in Heq. intros [Hz Hv]. rewrite Hv in Heq. lia.
    + intros Hn. do 2 f_equal. apply Hwarn.
      destruct (emailValid (document w)); [|by right].
      left. destruct (decide (missingFields (document w) = 0)); [|lia].
      destruct Hn. done.
Qed.

Lemma validateForm_success_iff_witness :
  requiredAreFields (document Page.scenarioB)
  ∧ emailIsField (document Page.scenarioB)
  ∧ (alerts (snd (validateForm Page.scenarioB))
     = alerts Page.scenarioB ++ [successMessage] ↔
       Forall (λ e, lit "required" ∈ classList e → isFilled e)
         (document Page.scenarioB)
       ∧ emailValid (document Page.scenarioB) = true)
  ∧ alerts (snd (validateForm Page.scenarioB)) = [successMessage].
Proof.
  assert (requiredAreFields (document Page.scenarioB)) as Hfields
    by (apply (bool_decide_unpack _); vm_compute; exact I).
  assert (emailIsField (document Page.scenarioB)) as Hemail
    by (apply (bool_decide_unpack _); vm_compute; exact I).
  split_and!; [exact Hfields|exact Hemail| |reflexivity].
  exact (proj1 (validateForm_success_iff Page.scenarioB Hfields Hemail)).
Defined.

(** X15. Whitespace around the email address does not count towards the
    8 code units: when the email field holds a core [v], neither starting
    nor ending with whitespace, wrapped in whitespace on either side,
    [validateEmail] returns true exactly when [v] itself is at least 8 code
    units long. *)
Theorem email_padding_ignored (w : World) (h : nat) (l v r : jsstring) :
  elementById (lit "email") (document w) = Some h →
  document w !! h ≫= value = Some (l ++ v ++ r) →
  allWhiteSpace l = true →
  allWhiteSpace r = true →
  (isWhiteSpace <$> head v) ≠ Some true →
  (isWhiteSpace <$> last v) ≠ Some true →
  fst (validateEmail w) = Normal (bool_decide (8 ≤ length v)%nat).
Proof.
  intros Hh Hv Hl Hr Hhead Hlast.
  rewrite validateEmail_run, Hh, Hv. simpl.
  by rewrite trim_unique, length_rule.
Qed.

Lemma email_padding_ignored_witness :
  elementById (lit "email") (document Page.noStatus) = Some 1%nat
  ∧ document Page.noStatus !! 1%nat ≫= value
    = Some (lit "  " ++ lit "a@b.example" ++ lit "  ")
  ∧ fst (validateEmail Page.noStatus)
    = Normal (bool_decide (8 ≤ length (lit "a@b.example"))%nat).
Proof.
  split_and!; [reflexivity..|].
  apply (email_padding_ignored Page.noStatus 1 (lit "  ") (lit "a@b.example")
           (lit "  "));
    try reflexivity;
    intros Heq; vm_compute in Heq; discriminate.
Defined.

(** X16. One required-tagged element without a text value silences the
    whole script: every listener stops at the TypeError of [checkMissing],
    so no event, input or click, changes any element or shows an alert. *)
Theorem tagged_non_field_silences_events (ls : Listeners) (ev : Event)
    (w : World) :
  ¬ requiredAreFields (document w) →
  document (snd (dispatchEvent ls ev w)) = document w
  ∧ alerts (snd (dispatchEvent ls ev w)) = alerts w.
Proof.
  intros Hd. rewrite dispatchEvent_run. simpl.
  destruct ev as [h|h]; case_decide; simpl; try done.
  - by rewrite onInput_run, checkMissing_Throw.
  - by rewrite validateForm_run, checkMissing_Throw.
Qed.

Lemma tagged_non_field_silences_events_witness :
  ¬ requiredAreFields (document Pages.taggedDiv)
  ∧ document
      (snd (dispatchEvent (mkListeners [0; 1; 2]%nat (Some 4%nat))
              (ClickEvent 4) Pages.taggedDiv))
    = document Pages.taggedDiv
  ∧ alerts
      (snd (dispatchEvent (mkListeners [0; 1; 2]%nat (Some 4%nat))
              (ClickEvent 4) Pages.taggedDiv))
    = alerts Pages.taggedDiv.
Proof.
  assert (¬ requiredAreFields (document Pages.taggedDiv)) as Hbad
    by (apply (bool_decide_unpack _); vm_compute; exact I).
  split; [exact Hbad|].
  apply (tagged_non_field_silences_events _ (ClickEvent 4) Pages.taggedDiv).
  exact Hbad.
Defined.

(** ** The error paths on sample pages *)

Example taggedDiv_throws :
  checkMissing Pages.taggedDiv = (Throw TypeError, Pages.taggedDiv)
  ∧ validateForm Pages.taggedDiv = (Throw TypeError, Pages.taggedDiv).
Proof. by vm_compute. Qed.

Example emailDiv_throws :
  validateEmail Pages.emailDiv = (Throw TypeError, Pages.emailDiv)
  ∧ fst (validateForm Pages.emailDiv) = Throw TypeError
  ∧ alerts (snd (validateForm Pages.emailDiv)) = []
  ∧ textContent <$> document (snd (validateForm Pages.emailDiv)) !! 2%nat
    = Some (lit "1 required field(s) still incomplete.").
Proof. by vm_compute. Qed.

Example noSubmit_wiring :
  fst (onDOMContentLoaded Pages.noSubmit)
  = Normal {| inputListeners := [0; 1]%nat; clickListener := None |}.
Proof. by vm_compute. Qed.
